(** * ivadomed: dataset construction, input dropout and 3D reconstruction

    A shallow embedding of three functions of the repository,

      - [ivadomed/loader/loader.py]: [dropout_input], [load_dataset] and the
        constructor of [Bids3DDataset];
      - [ivadomed/testing.py]: the reconstruction loop of [test];

    followed by the properties of the specification that speak about them.

    Conventions of the embedding.
      - Python dictionaries are finite maps from strings ([gmap string pyval]);
        a dictionary that the code mutates through a reference lives in a
        store and is passed around by its location.
      - [random.randint] reads its results from a tape of draws, so that every
        run of the code is the image of one tape.
      - Calls that write files ([pred_to_nib], [save_color_labels],
        [run_uncertainty]) are recorded, in order, in a trace of events. *)

From Stdlib Require Import ZArith List String Ascii QArith Lia.
From Stdlib Require Import DecimalString DecimalNat Sorted.
From stdpp Require Import base gmap strings list sorting.

Open Scope string_scope.
Open Scope list_scope.
Open Scope nat_scope.

(** ** Input dropout ([loader.py], [dropout_input]) *)

Module Dropout.

(** A channel is the flattened content of [seg_pair['input'][c]]; the function
    only compares voxel values with each other and overwrites them with zero,
    so integer voxels lose nothing. *)
Abbreviation channel := (list Z).
Abbreviation tensor := (list (list Z)).

Record seg_pair := SegPair {
  input : tensor;
  gt : tensor
}.

(** [len(torch.unique(input_data))] *)
Definition n_unique (c : channel) : nat := length (remove_dups c).

(** [[len(torch.unique(input_data)) > 1 for input_data in seg_pair['input']]] *)
Definition n_unique_values (t : tensor) : list bool :=
  map (fun c => bool_decide (1 < n_unique c)) t.

(** [np.where(mask)[0]]: the positions of the true entries, ascending. *)
Fixpoint np_where_from (i : nat) (mask : list bool) : list nat :=
  match mask with
  | [] => []
  | b :: mask' => (if b then [i] else []) ++ np_where_from (S i) mask'
  end.

Definition np_where (mask : list bool) : list nat := np_where_from 0 mask.

(** [idx_empty = np.where(np.invert(n_unique_values))[0]] *)
Definition idx_empty_of (t : tensor) : list nat :=
  np_where (map negb (n_unique_values t)).

(** The tape of the random generator: the values the successive calls of
    [random.randint] return. *)
Abbreviation tape := (list nat).

(** [random.randint(lo, hi)]: the next draw. A tape that ends, or whose next
    entry lies outside [lo..hi], describes no run of the call. *)
Definition randint (lo hi : nat) (tp : tape) : option (nat * tape) :=
  match tp with
  | [] => None
  | d :: tp' => if bool_decide (lo <= d <= hi) then Some (d, tp') else None
  end.

(** The loop
<<
    while len(idx_dropped) != n_dropped:
        idx = random.randint(0, n_channels - 1)
        if idx not in idx_empty:
            idx_dropped.append(idx)
>>
    Every iteration consumes one draw, so the recursion is on the tape. *)
Fixpoint select_dropped (n_channels : nat) (idx_empty : list nat)
    (n_dropped : nat) (idx_dropped : list nat) (tp : tape)
    : option (list nat * tape) :=
  if bool_decide (length idx_dropped = n_dropped) then Some (idx_dropped, tp)
  else
    match tp with
    | [] => None
    | idx :: tp' =>
        if bool_decide (0 <= idx <= n_channels - 1) then
          if bool_decide (idx ∈ idx_empty)
          then select_dropped n_channels idx_empty n_dropped idx_dropped tp'
          else select_dropped n_channels idx_empty n_dropped
                 (idx_dropped ++ [idx]) tp'
        else None
    end.

(** [torch.zeros_like] *)
Definition zeros_like (c : channel) : channel := map (fun _ => 0%Z) c.

(** [t[idx] = torch.zeros_like(t[idx])] for a list or array of indices: the
    listed channels are overwritten, the others are kept. All indices the
    function builds are below [n_channels]. *)
Definition zero_at (idx : list nat) (t : tensor) : tensor :=
  imap (fun i c => if bool_decide (i ∈ idx) then zeros_like c else c) t.

(** The text of the warning; the source starts it with a line feed. *)
Definition warning_not_multichannel : string :=
  String (ascii_of_nat 10)
    " Impossible to apply input-level dropout since input is not multi-channel.".

(** [dropout_input(seg_pair)]. The result carries the (updated) sample, the
    messages passed to [logger.warning] and the rest of the tape. *)
Definition dropout_input (sp : seg_pair) (tp : tape)
    : option (seg_pair * list string * tape) :=
  let n_channels := length (input sp) in
  if bool_decide (1 < n_channels) then
    let idx_empty := idx_empty_of (input sp) in
    match randint 0 (n_channels - 1) tp with
    | None => None
    | Some (n_dropped, tp1) =>
        if bool_decide (length idx_empty < n_dropped) then
          let n_dropped := n_dropped - length idx_empty in
          match select_dropped n_channels idx_empty n_dropped [] tp1 with
          | None => None
          | Some (idx_dropped, tp2) =>
              Some (SegPair (zero_at idx_dropped (input sp)) (gt sp), [], tp2)
          end
        else
          Some (SegPair (zero_at idx_empty (input sp)) (gt sp), [], tp1)
    end
  else Some (sp, [warning_not_multichannel], tp).

(** Observations on a sample. *)
Definition zero_channel (c : channel) : Prop := Forall (fun v => v = 0%Z) c.

#[global] Instance zero_channel_dec c : Decision (zero_channel c).
Proof. unfold zero_channel. apply _. Defined.

Definition n_zero (t : tensor) : nat := length (filter zero_channel t).
Definition n_nonzero (t : tensor) : nat :=
  length (filter (fun c => ¬ zero_channel c) t).

(** A channel "carries signal" for the function when it has two different
    values; a constant channel is what the function calls empty. *)
Definition has_signal (c : channel) : Prop := 1 < n_unique c.

(** The result of a run on a sample, without the tape. *)
Definition run (t : tensor) (tp : tape) : option tensor :=
  match dropout_input (SegPair t []) tp with
  | Some (sp, _, _) => Some (input sp)
  | None => None
  end.

End Dropout.

(** ** Dataset construction ([loader.py], [load_dataset], [Bids3DDataset]) *)

Module Loader.

(** Python values, as far as the function looks into them. *)
#[warnings="-register-all"] Inductive pyval :=
| PyNone
| PyBool (b : bool)
| PyInt (z : Z)
| PyStr (s : string)
| PyList (l : list pyval).

(** Truth value of a Python object, as [not] and [if] take it. *)
Definition truthy (v : pyval) : bool :=
  match v with
  | PyNone => false
  | PyBool b => b
  | PyInt z => negb (z =? 0)%Z
  | PyStr s => negb (String.eqb s "")
  | PyList l => match l with [] => false | _ => true end
  end.

(** [v == s] for a string literal [s]. *)
Definition eq_str (v : pyval) (s : string) : bool :=
  match v with
  | PyStr t => String.eqb t s
  | _ => false
  end.

(** Dictionaries; those that are shared with the caller live in a store and
    are named by their location. *)
Abbreviation dict := (gmap string pyval).
Abbreviation loc := nat.
Abbreviation store := (gmap nat (gmap string pyval)).

(** [d[key] = v] on the dictionary at [l]. A reference always denotes an
    object, so an unallocated location is not a case of the source. *)
Definition setitem (l : loc) (key : string) (v : pyval) (σ : store) : store :=
  alter (fun d => <[key := v]> d) l σ.

(** The outcome of a call: a value, the [KeyError] of a lookup, with its
    key, or the [TypeError] of a call that receives a keyword argument
    twice, with the keyword. *)
Inductive result (A : Type) :=
| Ok (a : A)
| KeyError (key : string)
| TypeError (keyword : string).
Arguments Ok {A} a.
Arguments KeyError {A} key.
Arguments TypeError {A} keyword.

(** [slice_axis]: "Choice between axial, sagittal, coronal". *)
Inductive axis_name := axial | sagittal | coronal.

(** [imed_utils.AXIS_DCT] is not among the sources; its entries are those the
    docstring of [Bids3DDataset] gives: "axial": 2, "sagittal": 0,
    "coronal": 1. *)
Definition AXIS_DCT (a : axis_name) : Z :=
  match a with
  | axial => 2
  | sagittal => 0
  | coronal => 1
  end%Z.

(** The transforms composed by [imed_transforms.prepare_transforms] from a
    deep copy of the parameters: the call is kept as it is made. *)
Record transforms := Transforms {
  tr_params : dict;
  tr_requires_undo : bool
}.

(** An object of class [imed_loader_utils.SliceFilter]: the keyword arguments
    unpacked from [slice_filter_params], [device] and [cuda_available]. *)
Record SliceFilter := MkSliceFilter {
  sf_params : dict;
  sf_device : pyval;
  sf_cuda_available : pyval
}.

(** The call of [imed_loader_utils.SliceFilter] of lines 81-83 and 101-102:
    the entries of [slice_filter_params] are unpacked into keyword arguments,
    next to [device] and [cuda_available]. A key of [slice_filter_params]
    that is also given by name makes the call fail before the class is
    entered. *)
Definition new_SliceFilter (slice_filter_params : dict)
    (device cuda_available : pyval) : result SliceFilter :=
  match slice_filter_params !! "device" with
  | Some _ => TypeError "device"
  | None =>
      match slice_filter_params !! "cuda_available" with
      | Some _ => TypeError "cuda_available"
      | None =>
          Ok (MkSliceFilter slice_filter_params device cuda_available)
      end
  end.

(** The task handed to a dataset: the value of [imed_utils.get_task(name)],
    or a literal. *)
Inductive task_value :=
| get_task (name : pyval)
| task_literal (s : string).

(** The six arguments every dataset class receives unchanged. *)
Record sources := Sources {
  bids_df : pyval;
  subject_file_lst : pyval;
  target_suffix : pyval;
  contrast_params : pyval;
  metadata_choice : pyval;
  object_detection_params : pyval
}.

(** An object of class [BidsDataset] (the class is imported): the keyword
    arguments of the call that built it, [None] for an argument the call
    leaves to its default. [bd_roi_at_init] is the content of the dictionary
    behind [roi_params] when the constructor ran. *)
Record BidsDataset := MkBidsDataset {
  bd_sources : sources;
  bd_roi_params : loc;
  bd_roi_at_init : option dict;
  bd_model_params : dict;
  bd_slice_axis : Z;
  bd_transform : transforms;
  bd_multichannel : bool;
  bd_slice_filter_fn : option SliceFilter;
  bd_soft_gt : option bool;
  bd_task : option task_value;
  bd_is_input_dropout : bool;
  bd_filenames_loaded : bool
}.

(** [dataset.load_filenames()] *)
Definition load_filenames (d : BidsDataset) : BidsDataset :=
  MkBidsDataset (bd_sources d) (bd_roi_params d) (bd_roi_at_init d)
    (bd_model_params d) (bd_slice_axis d) (bd_transform d) (bd_multichannel d)
    (bd_slice_filter_fn d) (bd_soft_gt d) (bd_task d) (bd_is_input_dropout d)
    true.

(** An object of class [imed_adaptative.HDF5Dataset]. *)
Record HDF5Dataset := MkHDF5Dataset {
  h5_sources : sources;
  h5_roi_params : loc;
  h5_roi_at_init : option dict;
  h5_model_params : dict;
  h5_slice_axis : Z;
  h5_transform : transforms;
  h5_slice_filter_fn : SliceFilter;
  h5_soft_gt : bool
}.

(** An object of class [Bids3DDataset]: the 2D-style dataset its constructor
    builds first, and the arguments of
    [MRI3DSubVolumeSegmentationDataset.__init__]. *)
Record Bids3DDataset := MkBids3DDataset {
  b3_dataset : BidsDataset;
  b3_length : pyval;
  b3_stride : pyval;
  b3_transform : transforms;
  b3_slice_axis : Z;
  b3_task : task_value;
  b3_soft_gt : bool;
  b3_is_input_dropout : bool
}.

(** [Bids3DDataset.__init__]: the inner [BidsDataset] is built before
    [model_params] is asked for ["length_3D"] and ["stride_3D"]. *)
Definition Bids3DDataset_init (σ : store) (src : sources)
    (model_params : dict) (slice_axis : Z) (transform : transforms)
    (roi_params : loc) (multichannel : bool) (task : task_value)
    (soft_gt is_input_dropout : bool) : result Bids3DDataset :=
  let dataset :=
    MkBidsDataset src roi_params (σ !! roi_params) model_params slice_axis
      transform multichannel None None None is_input_dropout false in
  match model_params !! "length_3D" with
  | None => KeyError "length_3D"
  | Some length =>
      match model_params !! "stride_3D" with
      | None => KeyError "stride_3D"
      | Some stride =>
          Ok (MkBids3DDataset dataset length stride transform slice_axis task
                soft_gt is_input_dropout)
      end
  end.

Inductive dataset :=
| Bids3D (d : Bids3DDataset)
| HDF5 (d : HDF5Dataset)
| Bids2D (d : BidsDataset).

(** The arguments of [load_dataset]. *)
Record arguments := Arguments_ {
  arg_sources : sources;
  transforms_params : dict;
  model_params : dict;
  roi_params : loc;
  slice_filter_params : dict;
  slice_axis : axis_name;
  multichannel : bool;
  dataset_type : string;
  requires_undo : bool;
  soft_gt : bool;
  device : pyval;
  cuda_available : pyval;
  is_input_dropout : bool
}.

(** [model_params["name"] == "Modified3DUNet" or
     ('is_2d' in model_params and not model_params['is_2d'])],
    once [model_params["name"]] is known. *)
Definition is_3d (name : pyval) (model_params : dict) : bool :=
  eq_str name "Modified3DUNet"
  || match model_params !! "is_2d" with
     | Some v => negb (truthy v)
     | None => false
     end.

(** Lines 53-55: without ['ROICrop'] among the transforms, no slice filtering
    based on ROI data. *)
Definition enforce_no_roi_filter (a : arguments) (σ : store) : store :=
  match transforms_params a !! "ROICrop" with
  | None => setitem (roi_params a) "slice_filter_roi" PyNone σ
  | Some _ => σ
  end.

(** Lines 57-107: the choice of the dataset class, in the store [σ] it runs
    in. *)
Definition build_dataset (a : arguments) (σ : store) : result dataset :=
  let tranform_lst := Transforms (transforms_params a) (requires_undo a) in
  match model_params a !! "name" with
  | None => KeyError "name"
  | Some name =>
      if is_3d name (model_params a) then
        match Bids3DDataset_init σ (arg_sources a) (model_params a)
                (AXIS_DCT (slice_axis a)) tranform_lst (roi_params a)
                (multichannel a) (task_literal "segmentation") (soft_gt a)
                (is_input_dropout a) with
        | Ok d => Ok (Bids3D d)
        | KeyError k => KeyError k
        | TypeError k => TypeError k
        end
      else if eq_str name "HeMISUnet" then
        match new_SliceFilter (slice_filter_params a) (device a)
                (cuda_available a) with
        | Ok slice_filter_fn =>
            Ok (HDF5 (MkHDF5Dataset (arg_sources a) (roi_params a)
                        (σ !! roi_params a) (model_params a)
                        (AXIS_DCT (slice_axis a)) tranform_lst
                        slice_filter_fn (soft_gt a)))
        | KeyError k => KeyError k
        | TypeError k => TypeError k
        end
      else
        let task := get_task name in
        match new_SliceFilter (slice_filter_params a) (device a)
                (cuda_available a) with
        | Ok slice_filter_fn =>
            let dataset :=
              MkBidsDataset (arg_sources a) (roi_params a) (σ !! roi_params a)
                (model_params a) (AXIS_DCT (slice_axis a)) tranform_lst
                (multichannel a) (Some slice_filter_fn) (Some (soft_gt a))
                (Some task) (is_input_dropout a) false in
            Ok (Bids2D (load_filenames dataset))
        | KeyError k => KeyError k
        | TypeError k => TypeError k
        end
  end.

(** [load_dataset]: the store after the call, and the dataset or the error.
    The messages the function logs at the end read [len(dataset)] and
    [dataset.length] and change nothing; they are left out. *)
Definition load_dataset (a : arguments) (σ : store) : store * result dataset :=
  let σ1 := enforce_no_roi_filter a σ in
  (σ1, build_dataset a σ1).

(** Observations on a dataset. *)
Inductive dataset_class := Class3D | ClassHDF5 | Class2D.

Definition class_of (d : dataset) : dataset_class :=
  match d with
  | Bids3D _ => Class3D
  | HDF5 _ => ClassHDF5
  | Bids2D _ => Class2D
  end.

(** The dictionary reference a dataset keeps. *)
Definition roi_ref (d : dataset) : loc :=
  match d with
  | Bids3D d => bd_roi_params (b3_dataset d)
  | HDF5 d => h5_roi_params d
  | Bids2D d => bd_roi_params d
  end.

(** What every constructor run for a dataset found behind [roi_params]. *)
Definition roi_at_init (d : dataset) : option dict :=
  match d with
  | Bids3D d => bd_roi_at_init (b3_dataset d)
  | HDF5 d => h5_roi_at_init d
  | Bids2D d => bd_roi_at_init d
  end.

(** *** The capabilities a model declares

    Section 4.3 of the specification speaks of the capabilities a model
    declares. They are read here from the configuration of the model, and
    not from the dispatch of [load_dataset]. *)

(** The model is of the kind [kind]: that is its name. *)
Definition of_kind (model_params : dict) (kind : string) : bool :=
  match model_params !! "name" with
  | Some (PyStr s) => String.eqb s kind
  | _ => false
  end.

(** The flag [is_2d] is given and switched off: it is false, or a value
    that stands for false. *)
Definition is_2d_off (model_params : dict) : bool :=
  match model_params !! "is_2d" with
  | None => false
  | Some PyNone => true
  | Some (PyBool b) => negb b
  | Some (PyInt z) => (z =? 0)%Z
  | Some (PyStr s) => match s with EmptyString => true | _ => false end
  | Some (PyList l) => match l with [] => true | _ => false end
  end.

(** A named model is volumetric when it is the 3D U-Net, or when it
    switches [is_2d] off. *)
Definition volumetric (model_params : dict) : bool :=
  match model_params !! "name" with
  | Some _ => of_kind model_params "Modified3DUNet" || is_2d_off model_params
  | None => false
  end.

(** A model tolerates missing modalities when it is the HeMIS U-Net. *)
Definition missing_modality (model_params : dict) : bool :=
  of_kind model_params "HeMISUnet".

(** The combinations of capabilities the specification lists as supported:
    plain 2D (neither capability), volumetric, missing-modality. A model that
    declares both capabilities is outside this set. *)
Definition supported_combination (model_params : dict) : bool :=
  negb (volumetric model_params && missing_modality model_params).

(** The configurations on which [load_dataset] returns: the model has a
    name; a volumetric model gives its patch length and stride; for any other
    model [slice_filter_params] leaves [device] and [cuda_available] to the
    arguments of these names. *)
Definition accepted (a : arguments) : Prop :=
  is_Some (model_params a !! "name")
  ∧ (volumetric (model_params a) = true →
     is_Some (model_params a !! "length_3D")
     ∧ is_Some (model_params a !! "stride_3D"))
  ∧ (volumetric (model_params a) = false →
     slice_filter_params a !! "device" = None
     ∧ slice_filter_params a !! "cuda_available" = None).

(** *** Sample data *)

Definition sources0 : sources :=
  Sources PyNone (PyList [PyStr "sub-01"]) (PyList [PyStr "_seg-manual"])
    PyNone PyNone PyNone.

(** A call with the given model and transform parameters; the caller's
    [roi_params] is the dictionary at location 0. *)
Definition arguments_of (model_params transforms_params : dict) : arguments :=
  Arguments_ sources0 transforms_params model_params 0 ∅ axial false
    "training" false false PyNone PyNone false.

Definition roi0 : dict :=
  <["suffix" := PyStr "_seg-manual"]> (<["slice_filter_roi" := PyInt 10]> ∅).

Definition store0 : store := <[0 := roi0]> ∅.

End Loader.

(** ** Reconstruction of the predictions ([testing.py], [test]) *)

Module Testing.

(** *** Strings and file names *)

(** [s.split(sep)[0]] for a separator that is not empty: what comes before
    the first occurrence of [sep], all of [s] when there is none. *)
Fixpoint split_first (sep s : string) : string :=
  if String.prefix sep s then EmptyString
  else
    match s with
    | EmptyString => EmptyString
    | String c s' => String c (split_first sep s')
    end.

(** [s.split('/')[-1]]: what comes after the last ['/']. *)
Fixpoint split_last_from (cur s : string) : string :=
  match s with
  | EmptyString => cur
  | String c s' =>
      if Ascii.eqb c "/" then split_last_from EmptyString s'
      else split_last_from (String.append cur (String c EmptyString)) s'
  end.

Definition split_last (s : string) : string := split_last_from EmptyString s.

Definition endswith_slash (s : string) : bool :=
  match String.get (String.length s - 1) s with
  | Some c => Ascii.eqb c "/"
  | None => false
  end.

(** [os.path.join(a, b)] (posix). *)
Definition os_path_join (a b : string) : string :=
  if String.prefix "/" b then b
  else if (String.eqb a "" || endswith_slash a)%bool then String.append a b
  else String.append a (String.append "/" b).

(** [str(n)] for a natural number. *)
Definition str (n : nat) : string := NilZero.string_of_uint (Nat.to_uint n).

Fixpoint zeros (n : nat) : string :=
  match n with
  | O => EmptyString
  | S n' => String "0" (zeros n')
  end.

(** [s.zfill(width)] for a string of digits. *)
Definition zfill (width : nat) (s : string) : string :=
  String.append (zeros (width - String.length s)) s.

(** The number a string of digits denotes. *)
Definition digits_value (s : string) : option nat :=
  Nat.of_uint <$> NilEmpty.uint_of_string s.

(** *** Arrays, samples and configuration *)

(** A numpy array: its shape and its values in row-major order. *)
Record ndarray := NdArray {
  shape : list nat;
  values : list Q
}.

Inductive kernel := kernel_2d | kernel_3d.

(** One entry of a batch, after the forward pass and [val_undo_transform]:
    [preds_idx_arr] (inference may be stochastic, so it depends on the
    Monte-Carlo pass), [metadata_idx[0]['gt_filenames'][0]], and the
    ['slice_index'] and ['input_filenames'] of
    [batch['input_metadata'][smp_idx][0]]. *)
Record sample := Sample {
  preds_idx_arr : nat -> ndarray;
  gt_filename : string;
  slice_index : Z;
  input_filenames : string
}.

(** A batch is the list of its samples: [len(preds_cpu)] and
    [len(batch['gt'])] are both its length. The loader is the list of its
    batches. *)
Abbreviation batch := (list sample).

(** [testing_params['uncertainty']] and [context['uncertainty']]. *)
Record uncertainty := Uncertainty {
  epistemic : bool;
  aleatoric : bool;
  n_it : Z
}.

(** The entries of [context] the loop reads. [context] is not an argument of
    [test] and the module does not define it: it is a parameter of the
    embedding, next to [testing_params]. *)
Record context := Context {
  unet_3D : bool;
  target_suffix_0 : string;
  slice_axis : Loader.axis_name;
  binarize_prediction : bool;
  ctx_uncertainty : uncertainty
}.

(** *** Trace *)

(** The calls that write files, with their arguments. *)
Inductive event :=
| pred_to_nib (data_lst : list ndarray) (z_lst : list Z)
    (fname_ref fname_out : string) (slice_axis : Z) (kernel_dim : kernel)
    (bin_thr : Q)
| save_color_labels (gt_data : ndarray) (binarize : bool)
    (gt_filename output_filename : string) (slice_axis : Z)
| run_uncertainty (ifolder : string).

(** The accumulators of the 2D path. *)
Record buffers := Buffers {
  pred_tmp_lst : list ndarray;
  z_tmp_lst : list Z;
  fname_tmp : string
}.

(** [pred_tmp_lst, z_tmp_lst, fname_tmp = [], [], ''] *)
Definition init_buffers : buffers := Buffers [] [] "".

(** [(... or ...) and n_it > 0], the test of lines 58-59 and 205-206. *)
Definition uncertainty_on (u : uncertainty) : bool :=
  ((epistemic u || aleatoric u) && (0 <? n_it u)%Z)%bool.

(** Lines 58-66. *)
Definition n_monteCarlo (testing_uncertainty : uncertainty) : Z :=
  if uncertainty_on testing_uncertainty then n_it testing_uncertainty else 1%Z.

(** [0.5 if context["binarize_prediction"] else -1] *)
Definition bin_thr_of (ctx : context) : Q :=
  if binarize_prediction ctx then (1 # 2)%Q else (-1 # 1)%Q.

(** Lines 136-141 and 171-175: the name of the prediction file. *)
Definition fname_pred_of (path_3Dpred : string) (ctx : context)
    (n_mc : Z) (i_monteCarlo : nat) (fname : string) : string :=
  let fname_pred := os_path_join path_3Dpred (split_last fname) in
  let fname_pred :=
    String.append (split_first (target_suffix_0 ctx) fname_pred)
      "_pred.nii.gz" in
  if (1 <? n_mc)%Z then
    String.append (split_first ".nii.gz" fname_pred)
      (String.append "_"
         (String.append (zfill 2 (str i_monteCarlo)) ".nii.gz"))
  else fname_pred.

(** [fname_pred.split(".nii.gz")[0] + '_color.nii.gz'] *)
Definition fname_color_of (fname_pred : string) : string :=
  String.append (split_first ".nii.gz" fname_pred) "_color.nii.gz".

Section Reconstruction.

(** [imed_utils.pred_to_nib] is imported: [nib_fdata] stands for the data
    [get_fdata()] of the image it returns, as a function of its arguments. *)
Variable nib_fdata :
  list ndarray -> list Z -> string -> Z -> kernel -> Q -> ndarray.

Variable path_3Dpred : string.
Variable ctx : context.
Variable n_mc : Z.
Variable i_monteCarlo : nat.

(** Line 133-134: the test that decides a flush. [last] is
    [i == len(test_loader) - 1 and smp_idx == len(batch['gt']) - 1]. *)
Definition new_processed_file (b : buffers) (fname_ref : string)
    (last : bool) : bool :=
  (match pred_tmp_lst b with [] => false | _ => true end
   && (negb (String.eqb fname_ref (fname_tmp b)) || last))%bool.

(** Lines 136-160: the buffers are written under the name of [fname_tmp],
    the color labels are added when the written volume has four dimensions
    and more than one entry along the first, and the buffers are emptied. *)
Definition flush (b : buffers) : buffers * list event :=
  let axis := Loader.AXIS_DCT (slice_axis ctx) in
  let fname_pred := fname_pred_of path_3Dpred ctx n_mc i_monteCarlo (fname_tmp b) in
  let output_nii :=
    nib_fdata (pred_tmp_lst b) (z_tmp_lst b) (fname_tmp b) axis kernel_2d
      (bin_thr_of ctx) in
  let saved :=
    pred_to_nib (pred_tmp_lst b) (z_tmp_lst b) (fname_tmp b) fname_pred axis
      kernel_2d (bin_thr_of ctx) in
  let color :=
    if ((length (shape output_nii) =? 4) && (1 <? hd 0 (shape output_nii)))%bool
    then [save_color_labels output_nii (binarize_prediction ctx) (fname_tmp b)
            (fname_color_of fname_pred) axis]
    else [] in
  (Buffers [] [] (fname_tmp b), saved :: color).

(** Lines 163-167. *)
Definition append_sample (b : buffers) (s : sample) : buffers :=
  Buffers (pred_tmp_lst b ++ [preds_idx_arr s i_monteCarlo])
    (z_tmp_lst b ++ [slice_index s])
    (gt_filename s).

(** Lines 132-167: one sample on the 2D path. *)
Definition step_2d (last : bool) (b : buffers) (s : sample)
    : buffers * list event :=
  let '(b1, evs) :=
    if new_processed_file b (gt_filename s) last then flush b else (b, []) in
  (append_sample b1 s, evs).

(** Lines 170-192: one sample on the 3D path. *)
Definition step_3d (s : sample) : list event :=
  let axis := Loader.AXIS_DCT (slice_axis ctx) in
  let arr := preds_idx_arr s i_monteCarlo in
  let fname_pred :=
    fname_pred_of path_3Dpred ctx n_mc i_monteCarlo (gt_filename s) in
  pred_to_nib [arr] [] (gt_filename s) fname_pred axis kernel_3d
    (bin_thr_of ctx)
  :: (if 1 <? hd 0 (shape arr)
      then [save_color_labels arr (binarize_prediction ctx)
              (input_filenames s) (fname_color_of fname_pred) axis]
      else []).

(** Lines 121-192: [if not context['unet_3D']: ... else: ...]. *)
Definition step (last : bool) (b : buffers) (s : sample)
    : buffers * list event :=
  if unet_3D ctx then (b, step_3d s) else step_2d last b s.

(** [for smp_idx in range(len(preds_cpu))], from [smp_idx] on; [n] is
    [len(batch['gt'])] and [last_batch] is [i == len(test_loader) - 1]. *)
Fixpoint samples_loop (last_batch : bool) (n : nat) (smp_idx : nat)
    (smps : list sample) (b : buffers) : buffers * list event :=
  match smps with
  | [] => (b, [])
  | s :: smps' =>
      let last :=
        (last_batch && (Z.of_nat smp_idx =? Z.of_nat n - 1)%Z)%bool in
      let '(b1, evs1) := step last b s in
      let '(b2, evs2) := samples_loop last_batch n (S smp_idx) smps' b1 in
      (b2, evs1 ++ evs2)
  end.

(** [for i, batch in enumerate(test_loader)], from [i] on; [len_loader] is
    [len(test_loader)]. *)
Fixpoint batches_loop (len_loader : nat) (i : nat) (batches : list batch)
    (b : buffers) : buffers * list event :=
  match batches with
  | [] => (b, [])
  | smps :: batches' =>
      let last_batch := (Z.of_nat i =? Z.of_nat len_loader - 1)%Z in
      let '(b1, evs1) := samples_loop last_batch (length smps) 0 smps b in
      let '(b2, evs2) := batches_loop len_loader (S i) batches' b1 in
      (b2, evs1 ++ evs2)
  end.

(** Lines 69-192: one Monte-Carlo pass over the loader: the buffers it ends
    with, and its trace. *)
Definition monteCarlo_pass (test_loader : list batch) : buffers * list event :=
  batches_loop (length test_loader) 0 test_loader init_buffers.

End Reconstruction.

(** [test]: the trace of the calls that write files. The metric manager reads
    the predictions and writes no file; it is left out. *)
Definition test (nib_fdata : list ndarray -> list Z -> string -> Z -> kernel -> Q -> ndarray)
    (testing_uncertainty : uncertainty) (ctx : context)
    (log_directory : string) (test_loader : list batch) : list event :=
  let path_3Dpred := os_path_join log_directory "pred_masks" in
  let n_mc := n_monteCarlo testing_uncertainty in
  flat_map
    (fun i_monteCarlo =>
       (monteCarlo_pass nib_fdata path_3Dpred ctx n_mc i_monteCarlo
          test_loader).2)
    (seq 0 (Z.to_nat n_mc))
  ++ (if uncertainty_on (ctx_uncertainty ctx)
      then [run_uncertainty path_3Dpred] else []).

(** *** The volume written by [pred_to_nib] *)

(** Insertion of a slice by its index: the slices of a volume are stacked in
    ascending index order. *)
Fixpoint insert_slice (z : Z) (a : ndarray) (l : list (Z * ndarray))
    : list (Z * ndarray) :=
  match l with
  | [] => [(z, a)]
  | (z', a') :: l' =>
      if (z <=? z')%Z then (z, a) :: l else (z', a') :: insert_slice z a l'
  end.

Definition sort_slices (l : list (Z * ndarray)) : list (Z * ndarray) :=
  foldr (fun za acc => insert_slice za.1 za.2 acc) [] l.

(** [np.stack(slices, axis=-1)]: position [p] of the result holds the values
    the slices have at [p], one per slice. *)
Definition stack_last (slices : list ndarray) : ndarray :=
  match slices with
  | [] => NdArray [] []
  | a :: _ =>
      NdArray (shape a ++ [length slices])
        (flat_map (fun p => map (fun s => nth p (values s) 0%Q) slices)
           (seq 0 (length (values a))))
  end.

(** A volume with one label has three dimensions, one with several has
    four. *)
Definition squeeze_label (a : ndarray) : ndarray :=
  match shape a with
  | 1 :: sh => NdArray sh (values a)
  | _ => a
  end.

Definition binarize (thr : Q) (a : ndarray) : ndarray :=
  NdArray (shape a)
    (map (fun v => if Qle_bool thr v then 1%Q else 0%Q) (values a)).

(** Modelled from the spec: [imed_utils.pred_to_nib] is not among the
    sources. Section 4.6: the slices are stacked along the slice axis in
    index order and the result is binarized at the configured threshold only
    for hard outputs (the caller passes [-1] otherwise); section 3: the
    volume is a 3D array, or a 4D array for several labels; a 3D-direct
    prediction is written as it is. The reorientation into the space of the
    reference image needs the image; the data are kept in the orientation of
    the predictions. *)
Definition pred_to_nib_data (data_lst : list ndarray) (z_lst : list Z)
    (fname_ref : string) (slice_axis : Z) (kernel_dim : kernel) (bin_thr : Q)
    : ndarray :=
  let arr :=
    match kernel_dim with
    | kernel_2d =>
        squeeze_label
          (stack_last (map snd (sort_slices (combine z_lst data_lst))))
    | kernel_3d => hd (NdArray [] []) data_lst
    end in
  if Qle_bool 0 bin_thr then binarize bin_thr arr else arr.

(** *** Observations on a trace *)

(** The volumes a trace saves: source file name and number of slices. *)
Definition saved_volumes (tr : list event) : list (string * nat) :=
  flat_map
    (fun ev =>
       match ev with
       | pred_to_nib data_lst _ fname_ref _ _ _ _ =>
           [(fname_ref, length data_lst)]
       | _ => []
       end)
    tr.

(** The names of the files the calls of [pred_to_nib] write. *)
Definition written_files (tr : list event) : list string :=
  flat_map
    (fun ev =>
       match ev with
       | pred_to_nib _ _ _ fname_out _ _ _ => [fname_out]
       | _ => []
       end)
    tr.

(** The stream of samples of a loader. *)
Definition stream (test_loader : list batch) : list sample :=
  concat test_loader.

(** The two buffers of the 2D path grow and shrink together. *)
Definition aligned (b : buffers) : Prop :=
  length (z_tmp_lst b) = length (pred_tmp_lst b).

(** A written volume that holds at least one slice, and one index per
    slice. *)
Definition nonempty_volume (ev : event) : Prop :=
  match ev with
  | pred_to_nib data_lst z_lst _ _ _ _ _ =>
      data_lst ≠ [] ∧ length z_lst = length data_lst
  | _ => True
  end.

(** The number of slices a trace writes. *)
Definition saved_slices (tr : list event) : nat :=
  list_sum (map snd (saved_volumes tr)).

(** The color labels that accompany a volume of the 2D path: present when
    the data of the written image have four dimensions and more than one
    entry along the first, and computed from these data. *)
Definition color_of_written
    (nib_fdata : list ndarray -> list Z -> string -> Z -> kernel -> Q -> ndarray)
    (ctx : context) (data_lst : list ndarray) (z_lst : list Z)
    (fname_ref fname_out : string) (axis : Z) : list event :=
  let written :=
    nib_fdata data_lst z_lst fname_ref axis kernel_2d (bin_thr_of ctx) in
  if ((length (shape written) =? 4) && (1 <? hd 0 (shape written)))%bool
  then [save_color_labels written (binarize_prediction ctx) fname_ref
          (fname_color_of fname_out) axis]
  else [].

(** The color labels that accompany a volume of the 3D path: present when
    the prediction has more than one entry along its first dimension, and
    computed from the prediction itself. *)
Definition color_of_prediction (ctx : context) (arr : ndarray)
    (gt_filename fname_out : string) (axis : Z) : list event :=
  if 1 <? hd 0 (shape arr)
  then [save_color_labels arr (binarize_prediction ctx) gt_filename
          (fname_color_of fname_out) axis]
  else [].

(** Traces in which every call of [pred_to_nib] passes the threshold of the
    configuration and is followed by its color labels, and no color labels
    appear elsewhere. *)
Inductive colored
    (nib_fdata : list ndarray -> list Z -> string -> Z -> kernel -> Q -> ndarray)
    (ctx : context) : list event -> Prop :=
| colored_nil : colored nib_fdata ctx []
| colored_uncertainty ifolder tr :
    colored nib_fdata ctx tr ->
    colored nib_fdata ctx (run_uncertainty ifolder :: tr)
| colored_2d data_lst z_lst fname_ref fname_out axis tr :
    colored nib_fdata ctx tr ->
    colored nib_fdata ctx
      (pred_to_nib data_lst z_lst fname_ref fname_out axis kernel_2d
         (bin_thr_of ctx)
       :: color_of_written nib_fdata ctx data_lst z_lst fname_ref fname_out
            axis
       ++ tr)
| colored_3d arr fname_ref gt_filename fname_out axis tr :
    colored nib_fdata ctx tr ->
    colored nib_fdata ctx
      (pred_to_nib [arr] [] fname_ref fname_out axis kernel_3d
         (bin_thr_of ctx)
       :: color_of_prediction ctx arr gt_filename fname_out axis ++ tr).

(** The calls of [run_uncertainty] in a trace. *)
Definition uncertainty_runs (tr : list event) : list string :=
  flat_map
    (fun ev => match ev with run_uncertainty f => [f] | _ => [] end) tr.

(** *** Sample data *)

(** A prediction of two labels on a slice of one pixel. *)
Definition two_labels (v0 v1 : Q) : ndarray := NdArray [2; 1; 1] [v0; v1].

Definition slice_of (fname : string) (z : Z) (v0 v1 : Q) : sample :=
  Sample (fun _ => two_labels v0 v1) fname z
    (String.append fname "_input").

(** Three slices with the keys A, A, B and the indices 0, 1, 0, in two
    batches. *)
Definition loader_AAB : list batch :=
  [[slice_of "data/A_seg.nii.gz" 0 (7 # 10) (2 # 10);
    slice_of "data/A_seg.nii.gz" 1 (6 # 10) (1 # 10)];
   [slice_of "data/B_seg.nii.gz" 0 (9 # 10) (3 # 10)]].

Definition no_uncertainty : uncertainty := Uncertainty false false 0.

Definition context_2d (binarize_prediction : bool) (u : uncertainty)
    : context :=
  Context false "_seg" Loader.axial binarize_prediction u.

Definition context_3d (binarize_prediction : bool) (u : uncertainty)
    : context :=
  Context true "_seg" Loader.axial binarize_prediction u.

(** A whole-volume prediction of two labels on a volume of two voxels. *)
Definition volume_of (fname : string) (v00 v01 v10 v11 : Q) : sample :=
  Sample (fun _ => NdArray [2; 1; 1; 2] [v00; v01; v10; v11]) fname 0
    (String.append fname "_input").

Definition loader_3d : list batch :=
  [[volume_of "data/A_seg.nii.gz" (7 # 10) (2 # 10) (6 # 10) (1 # 10)]].

End Testing.

(** ** Observations on the reconstruction *)

Module Volumes.
Import Testing.

(** The volumes a trace writes, in order: reference file, slices, indices. *)
Definition written (tr : list event) : list (string * list ndarray * list Z) :=
  flat_map
    (fun ev =>
       match ev with
       | pred_to_nib data_lst z_lst fname_ref _ _ _ _ =>
           [(fname_ref, data_lst, z_lst)]
       | _ => []
       end)
    tr.

(** What writing a run of samples under a key looks like in the trace. *)
Definition volume_of_run (i_monteCarlo : nat) (run : string * list sample)
    : string * list ndarray * list Z :=
  (run.1,
   map (fun s => preds_idx_arr s i_monteCarlo) run.2,
   map slice_index run.2).

(** A run of samples of one key, not empty. *)
Definition run_of_key (run : string * list sample) : Prop :=
  run.2 <> [] /\ Forall (fun s => gt_filename s = run.1) run.2.

(** The buffers hold the samples [rest], all of the key [fname_tmp]. *)
Definition holds (i_monteCarlo : nat) (b : buffers) (rest : list sample)
    : Prop :=
  pred_tmp_lst b = map (fun s => preds_idx_arr s i_monteCarlo) rest
  /\ z_tmp_lst b = map slice_index rest
  /\ Forall (fun s => gt_filename s = fname_tmp b) rest.

(** The samples read so far are the runs written, then the samples the
    buffers hold. *)
Definition tracked (i_monteCarlo : nat) (b : buffers) (tr : list event)
    (read : list sample) : Prop :=
  exists runs rest,
    written tr = map (volume_of_run i_monteCarlo) runs
    /\ Forall run_of_key runs
    /\ concat (map snd runs) ++ rest = read
    /\ holds i_monteCarlo b rest.

(** What the 3D path writes for a sample. *)
Definition volume_3d (i_monteCarlo : nat) (s : sample)
    : string * list ndarray * list Z :=
  (gt_filename s, [preds_idx_arr s i_monteCarlo], []).

End Volumes.

(** ** Observations on file names *)

Module Names.

(** Whether a character occurs in a string. *)
Fixpoint contains (c : ascii) (s : string) : bool :=
  match s with
  | EmptyString => false
  | String c' s' => (Ascii.eqb c' c || contains c s')%bool
  end.

End Names.

(** ** Preparation of a dataset ([prepare_dataset.py], [preprocessing.py]) *)

Module Prepare.

(** *** [get_midslice_average] *)

(** Lines 123-128 of [prepare_dataset.py], 23-28 of [preprocessing.py]:
    [numb_of_slice], for a volume of [n] slices along the axis and the
    index [ind]. *)
Definition numb_of_slice (n ind : Z) : Z :=
  let numb_of_slice := 3%Z in
  let numb_of_slice :=
    if (ind + 3 >? n)%Z then (n - ind)%Z else numb_of_slice in
  let numb_of_slice :=
    if (ind - numb_of_slice <? 0)%Z then ind else numb_of_slice in
  numb_of_slice.

(** A bound of a Python slice on a sequence of length [n]: a negative bound
    counts from the end, and every bound is clipped to the sequence. *)
Definition slice_bound (n i : Z) : Z :=
  if (i <? 0)%Z then Z.max 0 (i + n) else Z.min i n.

(** [l[lo:hi]] *)
Definition py_slice {A : Type} (lo hi : Z) (l : list A) : list A :=
  let n := Z.of_nat (length l) in
  let a := slice_bound n lo in
  let b := slice_bound n hi in
  take (Z.to_nat (b - a)) (drop (Z.to_nat a) l).

(** [arr[ind - numb_of_slice:ind + numb_of_slice, :, :]]: the slices that
    [np.mean] averages, for a volume given as the list of its slices along
    the axis. *)
Definition midslice_slices {A : Type} (arr : list A) (ind : Z) : list A :=
  let k := numb_of_slice (Z.of_nat (length arr)) ind in
  py_slice (ind - k) (ind + k) arr.

(** *** [mask2label] *)

(** A label volume [arr[x][y][z]] and a point [[x, y, z, value]]. *)
Abbreviation volume := (list (list (list Z))).
Abbreviation point := (nat * nat * nat * Z)%type.

Definition value_of (p : point) : Z := p.2.

(** The entries of a volume with their coordinates, in row-major order. *)
Definition voxels (arr : volume) : list point :=
  concat
    (imap
       (fun x plane =>
          concat
            (imap (fun y row => imap (fun z v => (x, y, z, v)) row) plane))
       arr).

(** The coordinates [arr.nonzero()] lists, each with the value [arr[x, y, z]]
    found there. *)
Definition nonzero (arr : volume) : list point :=
  filter (fun p => value_of p <> 0%Z) (voxels arr).

(** The test of lines 98-103 on a point. *)
Definition kept (aim : string) (p : point) : bool :=
  if String.eqb aim "full" then
    ((value_of p <? 30)%Z && negb (value_of p =? 1)%Z)%bool
  else if String.eqb aim "c2" then (value_of p =? 3)%Z
  else false.

(** [list.sort(key=lambda x: x[3])]: a stable sort on the value. *)
Fixpoint insert_point (p : point) (l : list point) : list point :=
  match l with
  | [] => [p]
  | q :: l' =>
      if (value_of p <=? value_of q)%Z then p :: l
      else q :: insert_point p l'
  end.

Definition sort_points (l : list point) : list point :=
  foldr insert_point [] l.

(** The order of the result. *)
Definition by_value (p q : point) : Prop := (value_of p <= value_of q)%Z.

(** [mask2label], on the array of the image. *)
Definition mask2label (arr : volume) (aim : string) : list point :=
  sort_points (List.filter (kept aim) (nonzero arr)).

(** *** [add_zero_padding] *)

(** A 2D array: its shape and its rows. *)
Record array2 (A : Type) := Array2 {
  height : nat;
  width : nat;
  rows : list (list A)
}.
Arguments Array2 {A} height width rows.
Arguments height {A} a.
Arguments width {A} a.
Arguments rows {A} a.

Definition well_shaped {A : Type} (img : array2 A) : Prop :=
  length (rows img) = height img
  /\ Forall (fun r => length r = width img) (rows img).

(** [img[r, c]], for indices that are not negative. *)
Definition pixel {A : Type} (img : array2 A) (r c : nat) : option A :=
  rows img !! r ≫= (fun row => row !! c).

(** [img_tmp[0:img.shape[0], 0:img.shape[1]] = img[:, :]]: the target is
    clipped to [img_tmp]; numpy accepts the assignment when each dimension of
    the source is the one of the target, or 1. *)
Definition fits {A : Type} (x_val y_val : nat) (img : array2 A) : bool :=
  ((bool_decide (height img = min (height img) x_val)
    || bool_decide (height img = 1))
   && (bool_decide (width img = min (width img) y_val)
       || bool_decide (width img = 1)))%bool.

Section Padding.

(** The type of the entries of the images given, and the [float64] numbers
    of [img_tmp]: [np.zeros((x_val, y_val), dtype=np.float64)] is filled with
    [zero], and the assignment of line 71 converts every entry it copies
    into a [float64], which [astype_float64] stands for. *)
Variable dtype : Type.
Variable float64 : Type.
Variable zero : float64.
Variable astype_float64 : dtype -> float64.

(** One turn of the loop: the padded image, or [None] for the [ValueError]
    of an assignment numpy refuses. *)
Definition pad_image (x_val y_val : nat) (img : array2 dtype)
    : option (array2 float64) :=
  if fits x_val y_val img then
    Some
      (Array2 x_val y_val
         (map
            (fun r =>
               map
                 (fun c =>
                    if (bool_decide (r < height img)
                        && bool_decide (c < width img))%bool
                    then
                      match pixel img r c with
                      | Some v => astype_float64 v
                      | None => zero
                      end
                    else zero)
                 (seq 0 y_val))
            (seq 0 x_val)))
  else None.

(** [add_zero_padding]: the argument is a list of images, or one image that
    the function puts in a list. *)
Definition add_zero_padding (img_list : array2 dtype + list (array2 dtype))
    (x_val y_val : nat) : option (list (array2 float64)) :=
  let img_list :=
    match img_list with
    | inl img => [img]
    | inr l => l
    end in
  mapM (pad_image x_val y_val) img_list.

End Padding.

(** The conversion to [float64] of the entries of an image of integers
    ([int64]): the nearest number with 53 significant bits, the even one of
    the two when they are as near. The number found is an integer, and is
    given as such. *)
Definition float64_of_int (z : Z) : Z :=
  let a := Z.abs z in
  let e := (Z.log2 a - 52)%Z in
  if (e <=? 0)%Z then z
  else
    let q := (a / 2 ^ e)%Z in
    let r := (a mod 2 ^ e)%Z in
    let half := (2 ^ (e - 1))%Z in
    let q :=
      if (r <? half)%Z then q
      else if (half <? r)%Z then (q + 1)%Z
      else if Z.even q then q else (q + 1)%Z in
    (Z.sgn z * (q * 2 ^ e))%Z.

End Prepare.

(** ** Hyperparameter configurations ([scripts/automate_training.py]) *)

Module Automate.

(** A value read from a JSON file. A dictionary keeps the order of its
    keys. *)
#[warnings="-register-all"] Inductive json :=
| JNull
| JBool (b : bool)
| JInt (z : Z)
| JFloat (q : Q)
| JStr (s : string)
| JList (l : list json)
| JDict (items : list (string * json)).

Inductive error :=
| AttributeError
| TypeError
| KeyError (key : string)
| ValueError
| IndexError.

Inductive outcome (A : Type) :=
| Done (a : A)
| Raise (e : error).
Arguments Done {A} a.
Arguments Raise {A} e.

Definition bind {A B : Type} (m : outcome A) (f : A -> outcome B)
    : outcome B :=
  match m with
  | Done a => f a
  | Raise e => Raise e
  end.

(** [d.get(k)] on the items of a dictionary. *)
Fixpoint dict_get (k : string) (items : list (string * json))
    : option json :=
  match items with
  | [] => None
  | (k', v) :: items' => if String.eqb k' k then Some v else dict_get k items'
  end.

(** [d[k] = v] on the items of a dictionary: a key that is present keeps its
    place, a new key comes last. *)
Fixpoint dict_set (k : string) (v : json) (items : list (string * json))
    : list (string * json) :=
  match items with
  | [] => [(k, v)]
  | (k', v') :: items' =>
      if String.eqb k' k then (k, v) :: items'
      else (k', v') :: dict_set k v items'
  end.

(** [d[k] = v] on a value: only a dictionary takes it. *)
Definition py_setitem (d : json) (k : string) (v : json) : outcome json :=
  match d with
  | JDict items => Done (JDict (dict_set k v items))
  | _ => Raise TypeError
  end.

(** [d[k]] for a string [k]. *)
Definition py_getitem (d : json) (k : string) : outcome json :=
  match d with
  | JDict items =>
      match dict_get k items with
      | Some v => Done v
      | None => Raise (KeyError k)
      end
  | _ => Raise TypeError
  end.

(** [for k, v in u.items(): ...], for a body that updates a state or
    raises. *)
Fixpoint for_items {S : Type} (body : S -> string -> json -> outcome S)
    (items : list (string * json)) (s : S) : outcome S :=
  match items with
  | [] => Done s
  | (k, v) :: items' => bind (body s k v) (for_items body items')
  end.

(** [update_dict(d, u, base_key)]. The function updates [d] in place and
    returns it; the callers pass a deep copy, so the value returned says all.
    [u.items()] needs a dictionary, [d.get] too. *)
Fixpoint update_dict (u : json) (d : json) (base_key : string)
    : outcome json :=
  match u with
  | JDict items =>
      for_items
        (fun d k v =>
           if String.eqb k base_key then py_setitem d k v
           else
             match v with
             | JDict _ =>
                 match d with
                 | JDict ditems =>
                     bind
                       (update_dict v
                          (default (JDict []) (dict_get k ditems)) base_key)
                       (py_setitem d k)
                 | _ => Raise AttributeError
                 end
             | _ => py_setitem d k v
             end)
        items d
  | _ => Raise AttributeError
  end.

(** [keys_are_unique] and [get_base_keys], on the list of the base keys. *)
Definition keys_are_unique (keys : list string) : bool :=
  length (remove_dups keys) =? length keys.

Definition get_base_keys (base_keys_all : list string) : list string :=
  fold_left
    (fun base_keys base_key =>
       if bool_decide (base_key ∈ base_keys) then base_keys
       else base_keys ++ [base_key])
    base_keys_all [].

(** [j[k1][k2]...] for the keys of [path] is [v]: every key is a key of the
    dictionary reached so far. *)
Fixpoint has_path (path : list string) (j v : json) : Prop :=
  match path with
  | [] => j = v
  | k :: path' =>
      exists items sub,
        j = JDict items /\ (k, sub) ∈ items /\ has_path path' sub v
  end.

(** [s.replace("/", "_")] *)
Fixpoint replace_slash (s : string) : string :=
  match s with
  | EmptyString => EmptyString
  | String c s' =>
      String (if Ascii.eqb c "/" then "_"%char else c) (replace_slash s')
  end.

Section Options.

(** [str] of a value of a hyperparameter, as Python prints it. *)
Variable py_str : json -> string.

(** [HyperparameterOption] *)
Record HyperparameterOption := MkOption {
  base_key : string;
  option_ : json;
  base_option : json;
  name : string
}.

(** [HyperparameterOption.__init__] with [create_name_str]. *)
Definition new_option (base_key : string) (option_ base_option : json)
    : HyperparameterOption :=
  MkOption base_key option_ base_option
    (String.append "-"
       (String.append base_key
          (String.append "=" (replace_slash (py_str base_option))))).

(** Lines 239-243 of [get_param_list]: the loop over [reversed(superkeys)]
    wraps [dict_prev] anew at every turn, so that the last turn, the one of
    the first superkey, says what [dict_new] is. *)
Definition wrap_option (superkeys : list string) (dict_prev : json) : json :=
  let dict_new :=
    fold_left (fun _ superkey => JDict [(superkey, dict_prev)])
      (rev superkeys) dict_prev in
  if length superkeys =? 0 then dict_prev else dict_new.

(** [get_param_list(my_dict, param_list, superkeys)] *)
Fixpoint get_param_list (my_dict : json)
    (param_list : list HyperparameterOption) (superkeys : list string)
    : outcome (list HyperparameterOption) :=
  match my_dict with
  | JDict items =>
      for_items
        (fun param_list key value =>
           match value with
           | JList elements =>
               Done
                 (param_list
                  ++ map
                       (fun element =>
                          new_option key
                            (wrap_option superkeys (JDict [(key, element)]))
                            element)
                       elements)
           | _ => get_param_list value param_list (superkeys ++ [key])
           end)
        items param_list
  | _ => Raise AttributeError
  end.

(** [var + hyper_option.name] for the directory of the logs. *)
Definition add_name (log_dir : json) (name : string) : outcome json :=
  match log_dir with
  | JStr s => Done (JStr (String.append s name))
  | _ => Raise TypeError
  end.

(** The last branch of [make_config_list]: one configuration per option. *)
Definition config_of_option (initial_config : json)
    (hyper_option : HyperparameterOption) : outcome json :=
  bind (update_dict (option_ hyper_option) initial_config
          (base_key hyper_option))
    (fun new_config =>
       bind (py_getitem initial_config "log_directory")
         (fun log_dir =>
            bind (add_name log_dir (name hyper_option))
              (py_setitem new_config "log_directory"))).

(** A loop that appends to [config_list] and stops at the first error. *)
Fixpoint collect {A B : Type} (f : A -> outcome B) (l : list A)
    : outcome (list B) :=
  match l with
  | [] => Done []
  | x :: l' =>
      bind (f x) (fun y => bind (collect f l') (fun ys => Done (y :: ys)))
  end.

(** The configuration of several options applied in turn (first two
    branches of [make_config_list]). [update_dict] writes the values of an
    option into the configuration without copying them; the values are taken
    here as they are when the option is applied. *)
Fixpoint apply_options (new_config log_dir : json)
    (options : list HyperparameterOption) : outcome (json * json) :=
  match options with
  | [] => Done (new_config, log_dir)
  | hyper_option :: options' =>
      bind (update_dict (option_ hyper_option) new_config
              (base_key hyper_option))
        (fun new_config =>
           bind (add_name log_dir (name hyper_option))
             (fun log_dir => apply_options new_config log_dir options'))
  end.

Definition config_of_options (initial_config : json)
    (options : list HyperparameterOption) : outcome json :=
  bind (py_getitem initial_config "log_directory")
    (fun log_dir =>
       bind (apply_options initial_config log_dir options)
         (fun r => py_setitem r.1 "log_directory" r.2)).

(** [itertools.combinations(l, r)] *)
Fixpoint combinations {A : Type} (r : nat) (l : list A) : list (list A) :=
  match r with
  | O => [[]]
  | S r' =>
      match l with
      | [] => []
      | x :: l' => map (cons x) (combinations r' l') ++ combinations r l'
      end
  end.

(** The combinations the first branch keeps. *)
Definition kept_combinations (param_list : list HyperparameterOption)
    : list (list HyperparameterOption) :=
  let keys := remove_dups (map base_key param_list) in
  List.filter (fun combination => keys_are_unique (map base_key combination))
    (combinations (length keys) param_list).

(** [base_key_dict] of the second branch: the options of each base key, in
    the order of [get_base_keys]. *)
Definition base_key_dict (param_list : list HyperparameterOption)
    : list (string * list HyperparameterOption) :=
  map
    (fun key =>
       (key,
        List.filter (fun o => String.eqb (base_key o) key) param_list))
    (get_base_keys (map base_key param_list)).

(** [np.min] of a list of lengths; it raises on the empty list. *)
Definition np_min (l : list nat) : outcome nat :=
  match l with
  | [] => Raise ValueError
  | x :: l' => Done (fold_left Nat.min l' x)
  end.

(** [make_config_list] *)
Definition make_config_list (param_list : list HyperparameterOption)
    (initial_config : json) (all_combin multi_params : bool)
    : outcome (list json) :=
  if all_combin then
    collect (config_of_options initial_config) (kept_combinations param_list)
  else if multi_params then
    let dict := base_key_dict param_list in
    bind (np_min (map (fun kv => length kv.2) dict))
      (fun max_length =>
         collect
           (fun i =>
              config_of_options initial_config
                (omap (fun kv => kv.2 !! i) dict))
           (seq 0 max_length))
  else collect (config_of_option initial_config) param_list.

End Options.

(** *** [train_worker], [test_worker]: the GPU of a process *)

(** [int(c)] for one character. *)
Definition digit_of (c : ascii) : option Z :=
  let n := nat_of_ascii c in
  if ((48 <=? n) && (n <=? 57))%bool then Some (Z.of_nat (n - 48)) else None.

Fixpoint last_char (s : string) : option ascii :=
  match s with
  | EmptyString => None
  | String c EmptyString => Some c
  | String _ s' => last_char s'
  end.

(** [l[i]] for a Python index, negative or not. *)
Definition py_nth {A : Type} (l : list A) (i : Z) : outcome A :=
  let n := Z.of_nat (length l) in
  let j := if (i <? 0)%Z then (i + n)%Z else i in
  if ((0 <=? j) && (j <? n))%Z%bool then
    match l !! Z.to_nat j with
    | Some x => Done x
    | None => Raise IndexError
    end
  else Raise IndexError.

(** Lines 80-85 and 109-114: [ID = int(current.name[-1]) - 1] and
    [config["gpu_ids"] = [config["gpu_ids"][ID]]], for the name of the
    process and the list [config["gpu_ids"]]. *)
Definition assign_gpu (process_name : string) (gpu_ids : list Z)
    : outcome (list Z) :=
  match last_char process_name with
  | None => Raise IndexError
  | Some c =>
      match digit_of c with
      | None => Raise ValueError
      | Some d =>
          let ID := (d - 1)%Z in
          bind (py_nth gpu_ids ID) (fun gpu => Done [gpu])
      end
  end.

End Automate.

(** * Properties *)

(** ** Input dropout *)

Module DropoutFacts.
Import Dropout.

Lemma elem_of_np_where_from (mask : list bool) (i j : nat) :
  j ∈ np_where_from i mask ↔ ∃ k, j = i + k ∧ mask !! k = Some true.
Proof.
  revert i. induction mask as [|b mask IH]; intros i; simpl.
  - split; [intros H; inversion H | intros (k & _ & H); discriminate].
  - rewrite elem_of_app, IH. split.
    + intros [H | (k & -> & H)].
      * destruct b; [|inversion H]. apply list_elem_of_singleton in H as ->.
        exists 0. split; [lia | done].
      * exists (S k). split; [lia | done].
    + intros ([|k] & -> & H); simpl in H.
      * left. injection H as ->. rewrite Nat.add_0_r. apply list_elem_of_singleton. done.
      * right. exists k. split; [lia | done].
Qed.

Lemma NoDup_np_where_from (mask : list bool) (i : nat) :
  NoDup (np_where_from i mask).
Proof.
  revert i. induction mask as [|b mask IH]; intros i; simpl.
  - constructor.
  - destruct b; simpl; [|apply IH]. apply NoDup_cons. split; [|apply IH].
    rewrite elem_of_np_where_from. intros (k & Hk & _). lia.
Qed.

Lemma length_np_where_split (mask : list bool) (i : nat) :
  length (np_where_from i mask) + length (np_where_from i (map negb mask))
  = length mask.
Proof.
  revert i. induction mask as [|b mask IH]; intros i; simpl; [done|].
  rewrite !length_app. specialize (IH (S i)). destruct b; simpl; lia.
Qed.

Lemma elem_of_idx_empty (t : tensor) (j : nat) :
  j ∈ idx_empty_of t ↔ ∃ c, t !! j = Some c ∧ ¬ has_signal c.
Proof.
  unfold idx_empty_of, np_where, n_unique_values.
  rewrite elem_of_np_where_from. split.
  - intros (k & -> & H). simpl. rewrite !list_lookup_fmap in H.
    destruct (t !! k) as [c|] eqn:E; simplify_eq/=.
    exists c. split; [done|]. unfold has_signal.
    apply negb_true_iff, bool_decide_eq_false in H. done.
  - intros (c & E & H). exists j. split; [done|].
    rewrite !list_lookup_fmap, E. simpl. f_equal.
    apply negb_true_iff, bool_decide_eq_false. done.
Qed.

Lemma elem_of_idx_signal (t : tensor) (j : nat) :
  j ∈ np_where (n_unique_values t) ↔ ∃ c, t !! j = Some c ∧ has_signal c.
Proof.
  unfold np_where, n_unique_values. rewrite elem_of_np_where_from. split.
  - intros (k & -> & H). simpl. rewrite list_lookup_fmap in H.
    destruct (t !! k) as [c|] eqn:E; simplify_eq/=.
    exists c. split; [done|]. apply bool_decide_eq_true in H. done.
  - intros (c & E & H). exists j. split; [done|].
    rewrite list_lookup_fmap, E. simpl. f_equal. apply bool_decide_eq_true. done.
Qed.

Lemma length_idx_split (t : tensor) :
  length (np_where (n_unique_values t)) + length (idx_empty_of t) = length t.
Proof.
  unfold idx_empty_of, np_where. rewrite length_np_where_split.
  unfold n_unique_values. apply length_map.
Qed.


Lemma select_dropped_spec n e nd acc tp out tp' :
  select_dropped n e nd acc tp = Some (out, tp') →
  length out = nd ∧
  ∃ extra, out = acc ++ extra ∧ Forall (λ i, (i ∉ e) ∧ i ≤ n - 1) extra.
Proof.
  revert acc. induction tp as [|d tp IH]; intros acc; simpl.
  - case_bool_decide as Hl; [|done]. intros [= <- <-]. split; [done|].
    exists []. by rewrite app_nil_r.
  - case_bool_decide as Hl.
    + intros [= <- <-]. split; [done|]. exists []. by rewrite app_nil_r.
    + case_bool_decide as Hr; [|done]. case_bool_decide as He.
      * apply IH.
      * intros H. apply IH in H as (Hlen & extra & -> & Hall).
        split; [done|]. exists (d :: extra). rewrite <- app_assoc. split; [done|].
        constructor; [split; [done | lia] | done].
Qed.

(** Enough draws of channels that carry signal make the loop stop. *)
Lemma select_dropped_terminates n e nd acc tp :
  Forall (λ d, d ≤ n - 1) tp →
  length acc ≤ nd →
  nd ≤ length acc + length (filter (λ d, d ∉ e) tp) →
  is_Some (select_dropped n e nd acc tp).
Proof.
  revert acc. induction tp as [|d tp IH]; intros acc Hv Hle Hge; simpl.
  - simpl in Hge. rewrite bool_decide_eq_true_2 by lia. eauto.
  - case_bool_decide as Hl; [eauto|].
    apply Forall_cons in Hv as [Hd Hv].
    rewrite bool_decide_eq_true_2 by lia.
    case_bool_decide as He.
    + apply IH; [done | done |]. rewrite filter_cons_False in Hge by tauto. done.
    + apply IH; [done | rewrite length_app; simpl; lia |].
      rewrite filter_cons_True in Hge by done. rewrite length_app. simpl in *. lia.
Qed.

Lemma lookup_zero_at idx (t : tensor) j :
  zero_at idx t !! j
  = (λ c, if bool_decide (j ∈ idx) then zeros_like c else c) <$> t !! j.
Proof. unfold zero_at. apply list_lookup_imap. Qed.

Lemma length_zero_at idx (t : tensor) : length (zero_at idx t) = length t.
Proof. unfold zero_at. apply length_imap. Qed.

Lemma zero_channel_zeros_like c : zero_channel (zeros_like c).
Proof. unfold zero_channel, zeros_like. apply Forall_fmap, Forall_true. done. Qed.

(** A channel of zeros has one value at most: it is "empty". *)
Lemma zero_channel_no_signal c : zero_channel c → ¬ has_signal c.
Proof.
  unfold zero_channel, has_signal, n_unique. intros Hz.
  assert (Hsub : remove_dups c ⊆+ [0%Z]).
  { apply NoDup_submseteq; [apply NoDup_remove_dups|].
    intros x Hx. rewrite elem_of_remove_dups in Hx.
    rewrite Forall_forall in Hz. rewrite (Hz x Hx). by left. }
  apply submseteq_length in Hsub. simpl in Hsub. lia.
Qed.

(** Pigeonhole: fewer picks than channels with signal leave one unpicked. *)
Lemma unpicked_signal (t : tensor) (picked : list nat) :
  length picked < length (np_where (n_unique_values t)) →
  ∃ j c, t !! j = Some c ∧ has_signal c ∧ j ∉ picked.
Proof.
  intros Hlt.
  destruct (decide (Forall (λ j, j ∈ picked) (np_where (n_unique_values t))))
    as [Hall | Hnot].
  - exfalso.
    assert (Hsub : np_where (n_unique_values t) ⊆+ picked).
    { apply NoDup_submseteq; [apply NoDup_np_where_from|].
      intros x Hx. rewrite Forall_forall in Hall. by apply Hall. }
    apply submseteq_length in Hsub. lia.
  - apply not_Forall_Exists in Hnot; [|apply _].
    apply Exists_exists in Hnot as (j & Hj & Hnp).
    apply elem_of_idx_signal in Hj as (c & E & Hs). by exists j, c.
Qed.

Lemma n_zero_nonzero (t : tensor) : n_zero t + n_nonzero t = length t.
Proof.
  unfold n_zero, n_nonzero. induction t as [|c t IH]; [done|].
  destruct (decide (zero_channel c)) as [Hz | Hz].
  - rewrite filter_cons_True by done. rewrite filter_cons_False by tauto.
    simpl. lia.
  - rewrite filter_cons_False by done. rewrite filter_cons_True by done.
    simpl. lia.
Qed.

Lemma n_nonzero_pos (t : tensor) j c :
  t !! j = Some c → ¬ zero_channel c → 1 ≤ n_nonzero t.
Proof.
  intros E Hc. unfold n_nonzero.
  assert (Hin : c ∈ filter (λ c, ¬ zero_channel c) t).
  { apply list_elem_of_filter. split; [done|]. by eapply list_elem_of_lookup_2. }
  destruct (filter _ t); [inversion Hin | simpl; lia].
Qed.


Lemma signal_survives_empty (t : tensor) :
  Exists has_signal t →
  ∃ j c, t !! j = Some c ∧ has_signal c ∧ j ∉ idx_empty_of t.
Proof.
  intros (c & Hc & Hs)%Exists_exists.
  apply list_elem_of_lookup_1 in Hc as (j & E).
  exists j, c. split_and!; [done | done |].
  rewrite elem_of_idx_empty. intros (c' & E' & Hn). congruence.
Qed.

Lemma kept_channel_nonzero idx (t : tensor) j c :
  t !! j = Some c → has_signal c → j ∉ idx →
  1 ≤ n_nonzero (zero_at idx t) ∧ n_zero (zero_at idx t) ≤ length t - 1.
Proof.
  intros E Hs Hj.
  assert (H1 : 1 ≤ n_nonzero (zero_at idx t)).
  { apply (n_nonzero_pos _ j c).
    - rewrite lookup_zero_at, E. simpl. by rewrite bool_decide_eq_false_2.
    - intros Hz. by apply zero_channel_no_signal in Hz. }
  split; [done|].
  pose proof (n_zero_nonzero (zero_at idx t)) as Hsum.
  rewrite length_zero_at in Hsum. lia.
Qed.

(** Safety: whatever the draws, a channel with signal is left. *)
Lemma dropout_input_safe (sp sp' : seg_pair) (tp tp' : tape) log :
  1 < length (input sp) → Exists has_signal (input sp) →
  dropout_input sp tp = Some (sp', log, tp') →
  log = [] ∧ gt sp' = gt sp ∧
  length (input sp') = length (input sp) ∧
  1 ≤ n_nonzero (input sp') ∧
  n_zero (input sp') ≤ length (input sp) - 1.
Proof.
  intros HC Hsig. unfold dropout_input.
  rewrite bool_decide_eq_true_2 by done.
  destruct tp as [|nd tp1]; [done|]. simpl.
  case_bool_decide as Hnd; [|done].
  case_bool_decide as Hgt.
  - destruct (select_dropped _ _ _ _ _) as [[out tp2]|] eqn:Hsel; [|done].
    intros [= <- <- <-]. simpl.
    apply select_dropped_spec in Hsel as (Hlen & extra & Hout & Hall).
    destruct (unpicked_signal (input sp) out) as (j & c & E & Hs & Hj).
    { pose proof (length_idx_split (input sp)). lia. }
    rewrite length_zero_at.
    pose proof (kept_channel_nonzero out _ j c E Hs Hj) as [? ?]. done.
  - intros [= <- <- <-]. simpl.
    destruct (signal_survives_empty _ Hsig) as (j & c & E & Hs & Hj).
    rewrite length_zero_at.
    pose proof (kept_channel_nonzero _ _ j c E Hs Hj) as [? ?]. done.
Qed.

(** Liveness: the drop count and enough draws of channels with signal give a
    result. *)
Lemma dropout_input_live (sp : seg_pair) (n_dropped : nat) (draws : tape) :
  1 < length (input sp) →
  n_dropped ≤ length (input sp) - 1 →
  Forall (λ d, d ≤ length (input sp) - 1) draws →
  n_dropped - length (idx_empty_of (input sp))
    ≤ length (filter (λ d, d ∉ idx_empty_of (input sp)) draws) →
  is_Some (dropout_input sp (n_dropped :: draws)).
Proof.
  intros HC Hnd Hv Hcount. unfold dropout_input.
  rewrite bool_decide_eq_true_2 by done. simpl.
  rewrite bool_decide_eq_true_2 by lia.
  case_bool_decide as Hgt; [|eauto].
  destruct (select_dropped_terminates (length (input sp))
              (idx_empty_of (input sp))
              (n_dropped - length (idx_empty_of (input sp))) [] draws)
    as [[out tp2] ->]; simpl; [done | lia | lia | eauto].
Qed.

(** C2 (amended). For a sample with more than one channel of which at least
    one carries signal (two different values), every run of [dropout_input]
    returns a sample with the same number of channels, at least one nonzero
    channel and at most [C - 1] zero channels, and logs nothing; a run exists
    as soon as the tape holds the drop count and enough draws of channels
    that carry signal. For a sample that is not multichannel the call
    returns the sample itself and logs one warning. *)
Theorem dropout_input_keeps_signal (sp : seg_pair) (tp : tape) :
  (1 < length (input sp) → Exists has_signal (input sp) →
     (∀ sp' log tp', dropout_input sp tp = Some (sp', log, tp') →
        log = [] ∧ gt sp' = gt sp ∧
        length (input sp') = length (input sp) ∧
        1 ≤ n_nonzero (input sp') ∧
        n_zero (input sp') ≤ length (input sp) - 1)
     ∧ (∀ n_dropped draws,
          tp = n_dropped :: draws →
          n_dropped ≤ length (input sp) - 1 →
          Forall (λ d, d ≤ length (input sp) - 1) draws →
          n_dropped - length (idx_empty_of (input sp))
            ≤ length (filter (λ d, d ∉ idx_empty_of (input sp)) draws) →
          is_Some (dropout_input sp tp)))
  ∧ (length (input sp) ≤ 1 →
       dropout_input sp tp = Some (sp, [warning_not_multichannel], tp)).
Proof.
  split.
  - intros HC Hsig. split.
    + intros sp' log tp'. by apply dropout_input_safe.
    + intros nd draws -> Hnd Hv Hcount. by apply dropout_input_live.
  - intros HC. unfold dropout_input.
    rewrite bool_decide_eq_false_2 by lia. done.
Qed.

Lemma dropout_input_keeps_signal_witness :
  1 ≤ n_nonzero [[1; 2]; [0; 0]; [0; 0]]%Z
  ∧ is_Some (dropout_input (SegPair [[1; 2]; [0; 0]; [3; 3]]%Z []) [1; 0]).
Proof.
  pose proof (dropout_input_keeps_signal
                (SegPair [[1; 2]; [0; 0]; [3; 3]]%Z []) [1; 0]) as [Hm _].
  assert (H1 : 1 < length (input (SegPair [[1; 2]; [0; 0]; [3; 3]]%Z [])))
    by (simpl; lia).
  assert (H2 : Exists has_signal (input (SegPair [[1; 2]; [0; 0]; [3; 3]]%Z [])))
    by (apply Exists_cons_hd; vm_compute; lia).
  destruct (Hm H1 H2) as [Hsafe Hlive].
  split.
  - destruct (Hsafe (SegPair [[1; 2]; [0; 0]; [0; 0]]%Z []) [] [0])
      as (_ & _ & _ & Hn & _); [reflexivity | exact Hn].
  - apply (Hlive 1 [0]);
      [reflexivity | simpl; lia | repeat constructor | vm_compute; lia].
Defined.

(** C2, as stated. Two samples with two channels each, none of which carries
    signal: the channels are all zero, or constant and not zero. Both come
    back with no nonzero channel, so two channels out of two are zeroed. *)
Lemma dropout_input_all_constant_counterexample :
  (run [[0; 0]; [0; 0]]%Z [0] = Some [[0; 0]; [0; 0]]%Z
   ∧ run [[5; 5]; [5; 5]]%Z [0] = Some [[0; 0]; [0; 0]]%Z)
  ∧ n_nonzero [[0; 0]; [0; 0]]%Z = 0
  ∧ ¬ (n_zero [[0; 0]; [0; 0]]%Z ≤ 2 - 1).
Proof. vm_compute. split_and!; try reflexivity. lia. Qed.

(** What the scenario of four channels keeps on every run: channel 2 stays
    zero, and four zero channels never come out. *)
Lemma dropout_scenario_bounds (c0 c1 c2 c3 : channel) (tp : tape) out :
  has_signal c0 → has_signal c1 → zero_channel c2 → has_signal c3 →
  run [c0; c1; c2; c3] (3 :: tp) = Some out →
  (∃ c, out !! 2 = Some c ∧ zero_channel c) ∧ n_zero out ≤ 3.
Proof.
  intros H0 H1 H2 H3. unfold run.
  destruct (dropout_input _ _) as [[[sp' log] tp']|] eqn:E; [|done].
  intros [= <-]. split.
  - revert E. unfold dropout_input. simpl.
    case_bool_decide as Hgt.
    + destruct (select_dropped _ _ _ _ _) as [[idx tp2]|]; [|done].
      intros [= <- _ _]. cbn [input]. rewrite lookup_zero_at.
      eexists. split; [reflexivity|].
      case_bool_decide; [apply zero_channel_zeros_like | done].
    + intros [= <- _ _]. cbn [input]. rewrite lookup_zero_at.
      eexists. split; [reflexivity|].
      case_bool_decide; [apply zero_channel_zeros_like | done].
  - apply dropout_input_safe in E as (_ & _ & _ & _ & Hz); simpl in *;
      [lia | lia | by apply Exists_cons_hd].
Qed.

(** C3, at the failing input. Four channels, channel 2 all zero, a drop count
    of 3: one empty channel leaves two channels to pick, and the generator
    returns channel 0 twice. The list of picked channels then has the two
    entries the loop waits for, so only channel 0 is overwritten: two channels
    are zero afterwards, where the scenario asks for three. With two
    different draws the outcome is the one of the scenario. *)
Theorem dropout_input_repeated_draw :
  run [[1; 2]; [3; 4]; [0; 0]; [5; 6]]%Z [3; 0; 0]
    = Some [[0; 0]; [3; 4]; [0; 0]; [5; 6]]%Z
  ∧ n_zero [[0; 0]; [3; 4]; [0; 0]; [5; 6]]%Z = 2
  ∧ run [[1; 2]; [3; 4]; [0; 0]; [5; 6]]%Z [3; 0; 1]
      = Some [[0; 0]; [0; 0]; [0; 0]; [5; 6]]%Z.
Proof. vm_compute. done. Qed.

End DropoutFacts.

(** ** Dataset construction *)

Module LoaderFacts.
Import Loader.

Lemma lookup_setitem_eq (σ : store) l key v d :
  σ !! l = Some d → setitem l key v σ !! l = Some (<[key := v]> d).
Proof. intros H. unfold setitem. rewrite lookup_alter_eq, H. done. Qed.

Lemma lookup_setitem_ne (σ : store) l l' key v :
  l ≠ l' → setitem l key v σ !! l' = σ !! l'.
Proof. intros H. unfold setitem. by rewrite lookup_alter_ne. Qed.

Lemma build_dataset_view (a : arguments) (σ : store) (ds : dataset) :
  build_dataset a σ = Ok ds →
  roi_ref ds = roi_params a ∧ roi_at_init ds = σ !! roi_params a.
Proof.
  unfold build_dataset, Bids3DDataset_init, new_SliceFilter.
  destruct (model_params a !! "name") as [name|]; [|done].
  destruct (is_3d name (model_params a)).
  - destruct (model_params a !! "length_3D"); [|done].
    destruct (model_params a !! "stride_3D"); [|done].
    intros [= <-]. done.
  - destruct (slice_filter_params a !! "device"),
      (slice_filter_params a !! "cuda_available"),
      (eq_str name "HeMISUnet"); try done; intros [= <-]; done.
Qed.

(** The capabilities read from the configuration are those the dispatch
    tests. *)
Lemma of_kind_eq_str (model_params : dict) (name : pyval) (kind : string) :
  model_params !! "name" = Some name →
  of_kind model_params kind = eq_str name kind.
Proof. unfold of_kind. intros ->. by destruct name. Qed.

Lemma is_2d_off_truthy (model_params : dict) :
  is_2d_off model_params
  = match model_params !! "is_2d" with
    | Some v => negb (truthy v)
    | None => false
    end.
Proof.
  unfold is_2d_off. destruct (model_params !! "is_2d") as [[ |b|z|s|l]|];
    simpl; try done.
  - by rewrite negb_involutive.
  - by destruct s.
  - by destruct l.
Qed.

Lemma volumetric_is_3d (model_params : dict) (name : pyval) :
  model_params !! "name" = Some name →
  volumetric model_params = is_3d name model_params.
Proof.
  intros H. unfold volumetric, is_3d.
  by rewrite (of_kind_eq_str _ name), is_2d_off_truthy, H.
Qed.

Lemma volumetric_named (model_params : dict) :
  volumetric model_params = true → is_Some (model_params !! "name").
Proof. unfold volumetric. by destruct (model_params !! "name"). Qed.

(** The outcomes of the dispatch. *)
Lemma build_dataset_cases (a : arguments) (σ : store) :
  match build_dataset a σ with
  | Ok ds =>
      accepted a
      ∧ class_of ds = (if volumetric (model_params a) then Class3D
                       else if missing_modality (model_params a)
                            then ClassHDF5 else Class2D)
  | KeyError k =>
      model_params a !! k = None
      ∧ (k = "name"
         ∨ (volumetric (model_params a) = true
            ∧ (k = "length_3D" ∨ k = "stride_3D")))
  | TypeError k =>
      is_Some (model_params a !! "name")
      ∧ volumetric (model_params a) = false
      ∧ is_Some (slice_filter_params a !! k)
      ∧ (k = "device" ∨ k = "cuda_available")
  end.
Proof.
  unfold build_dataset, Bids3DDataset_init, new_SliceFilter, accepted,
    missing_modality.
  destruct (model_params a !! "name") as [name|] eqn:Hname;
    [|split; [done | by left]].
  rewrite (volumetric_is_3d _ name Hname), (of_kind_eq_str _ name _ Hname).
  destruct (is_3d name (model_params a)).
  - destruct (model_params a !! "length_3D") eqn:Hl;
      [|split; [done | right; split; [done | by left]]].
    destruct (model_params a !! "stride_3D") eqn:Hs;
      [|split; [done | right; split; [done | by right]]].
    split; [|done]. split_and!; [done | by intros _; split | done].
  - destruct (eq_str name "HeMISUnet");
      destruct (slice_filter_params a !! "device") eqn:Hd;
      try (split_and!; [done | done | by rewrite Hd | by left]);
      destruct (slice_filter_params a !! "cuda_available") eqn:Hc;
      try (split_and!; [done | done | by rewrite Hc | by right]);
      (split; [|done]); split_and!; done.
Qed.

(** C6, as stated. The HeMIS U-Net declares tolerance of missing modalities;
    with [is_2d] switched off it is given the 3D sub-volume dataset, not the
    HDF5 dataset. A configuration that does not name its model is given no
    dataset at all. *)
Lemma load_dataset_dispatch_counterexample :
  let hemis_3d : dict :=
    <["name" := PyStr "HeMISUnet"]> (<["is_2d" := PyBool false]>
      (<["length_3D" := PyList [PyInt 96; PyInt 96; PyInt 16]]>
        (<["stride_3D" := PyList [PyInt 96; PyInt 96; PyInt 16]]> ∅))) in
  missing_modality hemis_3d = true
  ∧ (∃ ds, (load_dataset (arguments_of hemis_3d ∅) store0).2 = Ok ds
           ∧ class_of ds = Class3D
           ∧ class_of ds ≠ ClassHDF5)
  ∧ (load_dataset (arguments_of ∅ ∅) store0).2 = KeyError "name".
Proof.
  split_and!; [reflexivity | | reflexivity].
  eexists. split_and!; [reflexivity | done | done].
Qed.

(** C6 (amended). Whenever [load_dataset] returns, the dataset it returns
    is the 3D sub-volume dataset when the model declares the volumetric
    capability, also when it tolerates missing modalities as well; it is the
    HDF5 dataset when the model tolerates missing modalities and is not
    volumetric, and the 2D slice dataset otherwise. The function returns on
    the accepted configurations, and on no other. *)
Theorem load_dataset_dispatch (a : arguments) (σ : store) :
  (∀ ds, (load_dataset a σ).2 = Ok ds →
     class_of ds = (if volumetric (model_params a) then Class3D
                    else if missing_modality (model_params a)
                         then ClassHDF5 else Class2D))
  ∧ ((∃ ds, (load_dataset a σ).2 = Ok ds) ↔ accepted a).
Proof.
  unfold load_dataset. simpl.
  pose proof (build_dataset_cases a (enforce_no_roi_filter a σ)) as H.
  destruct (build_dataset a (enforce_no_roi_filter a σ)) as [ds|k|k].
  - destruct H as [Hacc Hc]. split.
    + by intros ds' [= <-].
    + split; [done | by eexists].
  - split; [done|]. split; [by intros [? ?]|].
    intros (Hname & H3d & _). exfalso.
    destruct H as [Hk [-> | [Hv [-> | ->]]]].
    + rewrite Hk in Hname. by destruct Hname.
    + destruct (H3d Hv) as [Hl _]. rewrite Hk in Hl. by destruct Hl.
    + destruct (H3d Hv) as [_ Hs]. rewrite Hk in Hs. by destruct Hs.
  - split; [done|]. split; [by intros [? ?]|].
    intros (_ & _ & H2d). exfalso.
    destruct H as (_ & Hv & Hk & [-> | ->]); destruct (H2d Hv) as [Hd Hc].
    + rewrite Hd in Hk. by destruct Hk.
    + rewrite Hc in Hk. by destruct Hk.
Qed.

Lemma load_dataset_dispatch_witness :
  ∃ ds, (load_dataset
           (arguments_of (<["name" := PyStr "Unet"]> ∅) ∅) store0).2 = Ok ds
        ∧ class_of ds = Class2D.
Proof.
  destruct (load_dataset_dispatch
              (arguments_of (<["name" := PyStr "Unet"]> ∅) ∅) store0)
    as [Hclass [_ Hacc]].
  destruct Hacc as [ds Hds].
  - split_and!; [by eexists | intros H; vm_compute in H; discriminate
                 | intros _; split; vm_compute; reflexivity].
  - exists ds. split; [exact Hds | exact (Hclass ds Hds)].
Defined.


(** C7. When ['ROICrop'] is not a key of [transforms_params], the entry
    ["slice_filter_roi"] of [roi_params] is [None] in the store in which the
    dataset is chosen and built: every dataset the call returns was built
    from the caller's dictionary, and found [None] under that key. *)
Theorem load_dataset_disables_roi_filter (a : arguments) (σ : store)
    (d : dict) (ds : dataset) :
  transforms_params a !! "ROICrop" = None →
  σ !! roi_params a = Some d →
  (load_dataset a σ).2 = Ok ds →
  enforce_no_roi_filter a σ !! roi_params a
    = Some (<["slice_filter_roi" := PyNone]> d)
  ∧ roi_ref ds = roi_params a
  ∧ ∃ d', roi_at_init ds = Some d' ∧ d' !! "slice_filter_roi" = Some PyNone.
Proof.
  intros Hcrop Hd Hds. unfold load_dataset in Hds. simpl in Hds.
  apply build_dataset_view in Hds as [Href Hview].
  assert (Hσ : enforce_no_roi_filter a σ !! roi_params a
               = Some (<["slice_filter_roi" := PyNone]> d)).
  { unfold enforce_no_roi_filter. rewrite Hcrop. by apply lookup_setitem_eq. }
  split_and!; [done | done |].
  eexists. split; [by rewrite Hview, Hσ |]. apply lookup_insert_eq.
Qed.

Lemma load_dataset_disables_roi_filter_witness :
  ∃ ds d', (load_dataset
              (arguments_of (<["name" := PyStr "HeMISUnet"]> ∅)
                 (<["Resample" := PyNone]> ∅)) store0).2 = Ok ds
           ∧ roi_at_init ds = Some d'
           ∧ d' !! "slice_filter_roi" = Some PyNone.
Proof.
  pose (a := arguments_of (<["name" := PyStr "HeMISUnet"]> ∅)
               (<["Resample" := PyNone]> ∅)).
  assert (Hcrop : transforms_params a !! "ROICrop" = None)
    by (vm_compute; reflexivity).
  assert (Hroi : store0 !! roi_params a = Some roi0)
    by (vm_compute; reflexivity).
  destruct (build_dataset a (enforce_no_roi_filter a store0)) as [ds|k|k]
    eqn:Hds; [|vm_compute in Hds; discriminate..].
  destruct (load_dataset_disables_roi_filter a store0 roi0 ds Hcrop Hroi Hds)
    as (_ & _ & d' & Hv & Hn).
  exists ds, d'. split; [exact Hds | split; [exact Hv | exact Hn]].
Defined.

(** C8, as stated. A model that declares both capabilities ([HeMISUnet] with
    [is_2d] false) is outside the supported combinations; the call does not
    fail: it returns the 3D dataset. *)
Lemma load_dataset_unsupported_counterexample :
  let both : dict :=
    <["name" := PyStr "HeMISUnet"]> (<["is_2d" := PyBool false]>
      (<["length_3D" := PyList [PyInt 96; PyInt 96; PyInt 16]]>
        (<["stride_3D" := PyList [PyInt 96; PyInt 96; PyInt 16]]> ∅))) in
  supported_combination both = false
  ∧ ∃ ds, (load_dataset (arguments_of both ∅) store0).2 = Ok ds
          ∧ class_of ds = Class3D.
Proof. split; [reflexivity | by eexists]. Qed.

(** C8 (amended). [load_dataset] does not check the combination of the
    capabilities: a model outside the supported combinations, one that
    declares both the volumetric capability and the tolerance of missing
    modalities, is given the 3D sub-volume dataset as soon as [model_params]
    has the patch length and the stride this dataset reads. *)
Theorem load_dataset_never_rejects (a : arguments) (σ : store) :
  supported_combination (model_params a) = false →
  is_Some (model_params a !! "length_3D") →
  is_Some (model_params a !! "stride_3D") →
  ∃ ds, (load_dataset a σ).2 = Ok ds ∧ class_of ds = Class3D.
Proof.
  unfold load_dataset. simpl.
  pose proof (build_dataset_cases a (enforce_no_roi_filter a σ)) as H.
  intros Hsup Hl Hs. unfold supported_combination in Hsup.
  apply negb_false_iff, andb_true_iff in Hsup as [Hv Hm].
  destruct (build_dataset a (enforce_no_roi_filter a σ)) as [ds|k|k].
  - exists ds. split; [done|]. destruct H as [_ ->]. by rewrite Hv.
  - exfalso. destruct H as [Hk [-> | [_ [-> | ->]]]].
    + apply volumetric_named in Hv. rewrite Hk in Hv. by destruct Hv.
    + rewrite Hk in Hl. by destruct Hl.
    + rewrite Hk in Hs. by destruct Hs.
  - exfalso. destruct H as (_ & Hv' & _). congruence.
Qed.

Lemma load_dataset_never_rejects_witness :
  ∃ ds, (load_dataset
           (arguments_of
              (<["name" := PyStr "HeMISUnet"]> (<["is_2d" := PyInt 0]>
                 (<["length_3D" := PyList [PyInt 64; PyInt 64; PyInt 16]]>
                    (<["stride_3D" :=
                         PyList [PyInt 32; PyInt 32; PyInt 16]]> ∅)))) ∅)
           store0).2 = Ok ds
        ∧ class_of ds = Class3D.
Proof.
  apply (load_dataset_never_rejects _ store0).
  - vm_compute. reflexivity.
  - vm_compute. by eexists.
  - vm_compute. by eexists.
Defined.

(** C9. [load_dataset] writes through the reference it is given: when
    ['ROICrop'] is not a key of [transforms_params], the caller's dictionary
    has [None] under ["slice_filter_roi"] after the call and its other
    entries are those it had; no other dictionary of the store changes, and
    the dataset returned keeps the same reference. *)
Theorem load_dataset_mutates_roi_params (a : arguments) (σ : store) (d : dict) :
  transforms_params a !! "ROICrop" = None →
  σ !! roi_params a = Some d →
  ∃ d', (load_dataset a σ).1 !! roi_params a = Some d'
        ∧ d' !! "slice_filter_roi" = Some PyNone
        ∧ (∀ k, k ≠ "slice_filter_roi" → d' !! k = d !! k)
        ∧ (∀ l, l ≠ roi_params a → (load_dataset a σ).1 !! l = σ !! l)
        ∧ (∀ ds, (load_dataset a σ).2 = Ok ds → roi_ref ds = roi_params a).
Proof.
  intros Hcrop Hd. exists (<["slice_filter_roi" := PyNone]> d).
  unfold load_dataset. simpl. unfold enforce_no_roi_filter. rewrite Hcrop.
  split_and!.
  - by apply lookup_setitem_eq.
  - apply lookup_insert_eq.
  - intros k Hk. by apply lookup_insert_ne.
  - intros l Hl. by apply lookup_setitem_ne.
  - intros ds Hds. by apply build_dataset_view in Hds as [? _].
Qed.

(** With ['ROICrop'] among the transforms the function writes nothing. *)
Lemma load_dataset_keeps_store (a : arguments) (σ : store) :
  is_Some (transforms_params a !! "ROICrop") → (load_dataset a σ).1 = σ.
Proof.
  intros [v Hv]. unfold load_dataset, enforce_no_roi_filter. simpl.
  by rewrite Hv.
Qed.

Lemma load_dataset_mutates_roi_params_witness :
  ∃ d', (load_dataset (arguments_of (<["name" := PyStr "Unet"]> ∅) ∅)
           store0).1 !! 0 = Some d'
        ∧ d' !! "slice_filter_roi" = Some PyNone
        ∧ d' !! "suffix" = Some (PyStr "_seg-manual").
Proof.
  pose (a := arguments_of (<["name" := PyStr "Unet"]> ∅) ∅).
  assert (Hcrop : transforms_params a !! "ROICrop" = None)
    by (vm_compute; reflexivity).
  assert (Hroi : store0 !! roi_params a = Some roi0)
    by (vm_compute; reflexivity).
  destruct (load_dataset_mutates_roi_params a store0 roi0 Hcrop Hroi)
    as (d' & Hd' & Hn & Hother & _).
  exists d'. split; [exact Hd' | split; [exact Hn |]].
  rewrite Hother by done. vm_compute. reflexivity.
Defined.

End LoaderFacts.

(** ** Reconstruction *)

Module TestingFacts.
Import Testing.

(** *** File names *)

Lemma length_append s t :
  String.length (String.append s t) = String.length s + String.length t.
Proof. induction s as [|c s IH]; simpl; [done | by rewrite IH]. Qed.

Lemma append_inj_r t s1 s2 :
  String.append s1 t = String.append s2 t → s1 = s2.
Proof.
  revert s2. induction s1 as [|c s1 IH]; intros s2 H.
  - destruct s2 as [|c2 s2]; [done|]. apply (f_equal String.length) in H.
    rewrite !length_append in H. simpl in H. lia.
  - destruct s2 as [|c2 s2].
    + apply (f_equal String.length) in H.
      rewrite !length_append in H. simpl in H. lia.
    + cbn in H. injection H as -> H. f_equal. by apply IH.
Qed.

Lemma to_uint_nonnil n : Nat.to_uint n ≠ Decimal.Nil.
Proof.
  intros H. pose proof (Unsigned.of_to n) as Hn. rewrite H in Hn.
  simpl in Hn. subst n. discriminate H.
Qed.

Lemma uint_of_string_zeros k s d :
  NilEmpty.uint_of_string s = Some d →
  NilEmpty.uint_of_string (String.append (zeros k) s)
  = Some (Nat.iter k Decimal.D0 d).
Proof.
  intros H. induction k as [|k IH]; simpl; [done|]. by rewrite IH.
Qed.

Lemma of_uint_zeros k d : Nat.of_uint (Nat.iter k Decimal.D0 d) = Nat.of_uint d.
Proof. induction k as [|k IH]; simpl; [done|]. exact IH. Qed.

(** A zero-filled number reads back as the number. *)
Lemma digits_value_zfill w n : digits_value (zfill w (str n)) = Some n.
Proof.
  unfold digits_value, zfill, str, NilZero.string_of_uint.
  pose proof (to_uint_nonnil n) as Hn.
  destruct (Nat.to_uint n) as [|d|d|d|d|d|d|d|d|d|d] eqn:E; [done|..];
    rewrite <- E;
    rewrite (uint_of_string_zeros _ _ (Nat.to_uint n)) by apply NilEmpty.usu;
    simpl; by rewrite of_uint_zeros, Unsigned.of_to.
Qed.

Lemma zfill_str_inj w i j : zfill w (str i) = zfill w (str j) → i = j.
Proof.
  intros H. apply (f_equal digits_value) in H.
  rewrite !digits_value_zfill in H. by injection H.
Qed.

(** With more than one pass, the passes write a volume under different
    names. *)
Lemma fname_pred_of_pass_inj path_3Dpred ctx n_mc i j fname :
  (1 < n_mc)%Z →
  fname_pred_of path_3Dpred ctx n_mc i fname
  = fname_pred_of path_3Dpred ctx n_mc j fname →
  i = j.
Proof.
  intros Hn. unfold fname_pred_of.
  replace (1 <? n_mc)%Z with true by (symmetry; apply Z.ltb_lt; lia).
  intros H. apply String.app_inj in H. apply String.app_inj in H.
  apply append_inj_r in H. by apply zfill_str_inj in H.
Qed.

Lemma n_monteCarlo_cases u :
  (uncertainty_on u = true ∧ n_monteCarlo u = n_it u ∧ (0 < n_it u)%Z)
  ∨ (uncertainty_on u = false ∧ n_monteCarlo u = 1%Z).
Proof.
  unfold n_monteCarlo. destruct (uncertainty_on u) eqn:E; [left | by right].
  split_and!; [done | done |]. unfold uncertainty_on in E.
  apply andb_true_iff in E as [_ E]. by apply Z.ltb_lt in E.
Qed.

Section Loops.

Variable nib_fdata :
  list ndarray -> list Z -> string -> Z -> kernel -> Q -> ndarray.
Variable path_3Dpred : string.
Variable ctx : context.
Variable n_mc : Z.
Variable i_monteCarlo : nat.

Abbreviation step := (step nib_fdata path_3Dpred ctx n_mc i_monteCarlo).
Abbreviation step_2d := (step_2d nib_fdata path_3Dpred ctx n_mc i_monteCarlo).
Abbreviation flush := (flush nib_fdata path_3Dpred ctx n_mc i_monteCarlo).
Abbreviation samples_loop :=
  (samples_loop nib_fdata path_3Dpred ctx n_mc i_monteCarlo).
Abbreviation batches_loop :=
  (batches_loop nib_fdata path_3Dpred ctx n_mc i_monteCarlo).

(** A property of the events of the 2D path that one step establishes is a
    property of the whole trace of a pass. *)
Lemma samples_loop_ind (I : buffers → Prop) (P : event → Prop) :
  (∀ last b s, I b → I (step last b s).1 ∧ Forall P (step last b s).2) →
  ∀ last_batch n smps smp_idx b,
    I b →
    I (samples_loop last_batch n smp_idx smps b).1
    ∧ Forall P (samples_loop last_batch n smp_idx smps b).2.
Proof.
  intros Hstep last_batch n smps.
  induction smps as [|s smps IH]; intros smp_idx b Hb; simpl.
  - split; [done | constructor].
  - destruct (step _ b s) as [b1 evs1] eqn:E1.
    destruct (samples_loop _ _ _ smps b1) as [b2 evs2] eqn:E2.
    destruct (Hstep (last_batch && (Z.of_nat smp_idx =? Z.of_nat n - 1)%Z) b s Hb)
      as [Hb1 Hev1].
    rewrite E1 in Hb1, Hev1. simpl in *.
    destruct (IH (S smp_idx) b1 Hb1) as [Hb2 Hev2]. rewrite E2 in Hb2, Hev2.
    split; [done | by apply Forall_app].
Qed.

Lemma batches_loop_ind (I : buffers → Prop) (P : event → Prop) :
  (∀ last b s, I b → I (step last b s).1 ∧ Forall P (step last b s).2) →
  ∀ len_loader batches i b,
    I b →
    I (batches_loop len_loader i batches b).1
    ∧ Forall P (batches_loop len_loader i batches b).2.
Proof.
  intros Hstep len_loader batches.
  induction batches as [|smps batches IH]; intros i b Hb; simpl.
  - split; [done | constructor].
  - destruct (samples_loop _ _ _ smps b) as [b1 evs1] eqn:E1.
    destruct (batches_loop _ _ batches b1) as [b2 evs2] eqn:E2.
    destruct (samples_loop_ind I P Hstep
                (Z.of_nat i =? Z.of_nat len_loader - 1)%Z (length smps) smps 0 b Hb)
      as [Hb1 Hev1].
    rewrite E1 in Hb1, Hev1. simpl in *.
    destruct (IH (S i) b1 Hb1) as [Hb2 Hev2]. rewrite E2 in Hb2, Hev2.
    split; [done | by apply Forall_app].
Qed.

Lemma step_2d_nonempty last b s :
  aligned b →
  aligned (step_2d last b s).1 ∧ Forall nonempty_volume (step_2d last b s).2.
Proof.
  destruct b as [p z f]. unfold aligned, Testing.step_2d, new_processed_file.
  simpl. intros Hb.
  destruct p as [|a p]; simpl.
  - split; [|constructor]. rewrite !length_app. simpl in *. lia.
  - destruct (negb (String.eqb (gt_filename s) f) || last); simpl.
    + split; [done|]. constructor; [done|].
      destruct (_ && _); repeat constructor.
    + split; [|constructor]. rewrite !length_app. simpl in *. lia.
Qed.

Lemma step_nonempty :
  unet_3D ctx = false →
  ∀ last b s,
    aligned b →
    aligned (step last b s).1 ∧ Forall nonempty_volume (step last b s).2.
Proof.
  intros H2d last b s Hb. unfold Testing.step. rewrite H2d.
  by apply step_2d_nonempty.
Qed.

(** On the sample that ends the stream the buffers are flushed if they hold
    anything, and the sample is appended afterwards: it is all the buffers
    hold when the loop ends. *)
Lemma step_2d_last b s :
  aligned b →
  (step_2d true b s).1
  = Buffers [preds_idx_arr s i_monteCarlo] [slice_index s] (gt_filename s).
Proof.
  destruct b as [p z f]. unfold aligned, Testing.step_2d, new_processed_file.
  simpl. intros Hb. rewrite orb_true_r.
  destruct p as [|a p]; simpl; [|done].
  destruct z; [done | simpl in Hb; lia].
Qed.

Lemma samples_loop_last n smps s smp_idx b :
  unet_3D ctx = false →
  smp_idx + length (smps ++ [s]) = n →
  aligned b →
  (samples_loop true n smp_idx (smps ++ [s]) b).1
  = Buffers [preds_idx_arr s i_monteCarlo] [slice_index s] (gt_filename s).
Proof.
  intros H2d. revert smp_idx b.
  induction smps as [|s' smps IH]; intros smp_idx b Hn Hb; simpl in *.
  - unfold Testing.step. rewrite H2d.
    replace (Z.of_nat smp_idx =? Z.of_nat n - 1)%Z with true
      by (symmetry; apply Z.eqb_eq; lia).
    pose proof (step_2d_last b s Hb) as Hl.
    destruct (step_2d true b s) as [b1 evs1]. simpl in *. by subst.
  - destruct (step _ b s') as [b1 evs1] eqn:E1.
    destruct (samples_loop _ _ _ (smps ++ [s]) b1) as [b2 evs2] eqn:E2.
    simpl. pose proof (step_nonempty H2d
      (Z.of_nat smp_idx =? Z.of_nat n - 1)%Z b s' Hb) as [Hb1 _].
    rewrite E1 in Hb1. simpl in Hb1.
    specialize (IH (S smp_idx) b1). rewrite E2 in IH. apply IH; [lia | done].
Qed.

Lemma batches_loop_last len_loader batches smps s i b :
  unet_3D ctx = false →
  i + length (batches ++ [smps ++ [s]]) = len_loader →
  aligned b →
  (batches_loop len_loader i (batches ++ [smps ++ [s]]) b).1
  = Buffers [preds_idx_arr s i_monteCarlo] [slice_index s] (gt_filename s).
Proof.
  intros H2d. revert i b.
  induction batches as [|smps' batches IH]; intros i b Hn Hb; simpl in *.
  - replace (Z.of_nat i =? Z.of_nat len_loader - 1)%Z with true
      by (symmetry; apply Z.eqb_eq; lia).
    pose proof (samples_loop_last (length (smps ++ [s])) smps s 0 b H2d
                  eq_refl Hb) as Hl.
    destruct (samples_loop _ _ _ (smps ++ [s]) b) as [b1 evs1]. simpl in *.
    by subst.
  - destruct (samples_loop _ _ _ smps' b) as [b1 evs1] eqn:E1.
    destruct (batches_loop _ _ (batches ++ _) b1) as [b2 evs2] eqn:E2.
    simpl. pose proof (samples_loop_ind aligned nonempty_volume
      (step_nonempty H2d)
      (Z.of_nat i =? Z.of_nat len_loader - 1)%Z (length smps') smps' 0 b Hb)
      as [Hb1 _].
    rewrite E1 in Hb1. simpl in Hb1.
    specialize (IH (S i) b1). rewrite E2 in IH. apply IH; [lia | done].
Qed.

(** Slices are neither lost nor invented while the loop runs: what has been
    written and what the buffers hold add up to the samples read. *)
Lemma saved_slices_app tr1 tr2 :
  saved_slices (tr1 ++ tr2) = saved_slices tr1 + saved_slices tr2.
Proof.
  unfold saved_slices, saved_volumes.
  by rewrite flat_map_app, map_app, list_sum_app.
Qed.

Lemma step_2d_count last b s :
  saved_slices (step_2d last b s).2 + length (pred_tmp_lst (step_2d last b s).1)
  = length (pred_tmp_lst b) + 1.
Proof.
  destruct b as [p z f]. unfold Testing.step_2d, new_processed_file. simpl.
  destruct p as [|a p]; simpl.
  - done.
  - destruct (negb (String.eqb (gt_filename s) f) || last); simpl.
    + unfold saved_slices. simpl. destruct (_ && _); simpl; lia.
    + rewrite length_app. simpl. unfold saved_slices. simpl. lia.
Qed.

Lemma samples_loop_count last_batch n smps smp_idx b :
  unet_3D ctx = false →
  saved_slices (samples_loop last_batch n smp_idx smps b).2
  + length (pred_tmp_lst (samples_loop last_batch n smp_idx smps b).1)
  = length (pred_tmp_lst b) + length smps.
Proof.
  intros H2d. revert smp_idx b.
  induction smps as [|s smps IH]; intros smp_idx b; simpl.
  - unfold saved_slices. simpl. lia.
  - pose proof (step_2d_count
      (last_batch && (Z.of_nat smp_idx =? Z.of_nat n - 1)%Z) b s) as H1.
    unfold Testing.step. rewrite H2d.
    destruct (step_2d _ b s) as [b1 evs1].
    specialize (IH (S smp_idx) b1).
    destruct (samples_loop _ _ _ smps b1) as [b2 evs2].
    simpl in *. rewrite saved_slices_app. lia.
Qed.

Lemma batches_loop_count len_loader batches i b :
  unet_3D ctx = false →
  saved_slices (batches_loop len_loader i batches b).2
  + length (pred_tmp_lst (batches_loop len_loader i batches b).1)
  = length (pred_tmp_lst b) + length (stream batches).
Proof.
  intros H2d. revert i b.
  induction batches as [|smps batches IH]; intros i b; simpl.
  - unfold saved_slices. simpl. lia.
  - pose proof (samples_loop_count
      (Z.of_nat i =? Z.of_nat len_loader - 1)%Z (length smps) smps 0 b H2d)
      as H1.
    destruct (samples_loop _ _ _ smps b) as [b1 evs1].
    specialize (IH (S i) b1).
    destruct (batches_loop _ _ batches b1) as [b2 evs2].
    simpl in *. rewrite saved_slices_app, length_app. lia.
Qed.

Lemma colored_app tr1 tr2 :
  colored nib_fdata ctx tr1 → colored nib_fdata ctx tr2 →
  colored nib_fdata ctx (tr1 ++ tr2).
Proof.
  intros H1 H2. induction H1 as [| f tr _ IH | d z fr fo ax tr _ IH
                                 | a fr g fo ax tr _ IH]; simpl.
  - done.
  - by constructor.
  - rewrite <- app_assoc. by constructor.
  - rewrite <- app_assoc. by constructor.
Qed.

Lemma step_colored last b s : colored nib_fdata ctx (step last b s).2.
Proof.
  unfold Testing.step. destruct (unet_3D ctx); simpl.
  - unfold step_3d.
    pose proof (colored_3d nib_fdata ctx (preds_idx_arr s i_monteCarlo)
      (gt_filename s) (input_filenames s)
      (fname_pred_of path_3Dpred ctx n_mc i_monteCarlo (gt_filename s))
      (Loader.AXIS_DCT (slice_axis ctx)) [] (colored_nil _ _)) as H.
    unfold color_of_prediction in H. by rewrite app_nil_r in H.
  - unfold Testing.step_2d.
    destruct (new_processed_file b (gt_filename s) last); simpl;
      [|constructor].
    pose proof (colored_2d nib_fdata ctx (pred_tmp_lst b) (z_tmp_lst b)
      (fname_tmp b)
      (fname_pred_of path_3Dpred ctx n_mc i_monteCarlo (fname_tmp b))
      (Loader.AXIS_DCT (slice_axis ctx)) [] (colored_nil _ _)) as H.
    unfold color_of_written in H. by rewrite app_nil_r in H.
Qed.

Lemma samples_loop_colored last_batch n smps smp_idx b :
  colored nib_fdata ctx (samples_loop last_batch n smp_idx smps b).2.
Proof.
  revert smp_idx b. induction smps as [|s smps IH]; intros smp_idx b; simpl.
  - constructor.
  - pose proof (step_colored
      (last_batch && (Z.of_nat smp_idx =? Z.of_nat n - 1)%Z) b s) as H1.
    destruct (step _ b s) as [b1 evs1].
    specialize (IH (S smp_idx) b1).
    destruct (samples_loop _ _ _ smps b1) as [b2 evs2].
    by apply colored_app.
Qed.

Lemma batches_loop_colored len_loader batches i b :
  colored nib_fdata ctx (batches_loop len_loader i batches b).2.
Proof.
  revert i b. induction batches as [|smps batches IH]; intros i b; simpl.
  - constructor.
  - pose proof (samples_loop_colored
      (Z.of_nat i =? Z.of_nat len_loader - 1)%Z (length smps) smps 0 b) as H1.
    destruct (samples_loop _ _ _ smps b) as [b1 evs1].
    specialize (IH (S i) b1).
    destruct (batches_loop _ _ batches b1) as [b2 evs2].
    by apply colored_app.
Qed.

(** The steps of the loop write volumes and color labels only. *)
Lemma step_no_uncertainty last b s :
  Forall (λ ev, ∀ f, ev ≠ run_uncertainty f) (step last b s).2.
Proof.
  unfold Testing.step.
  destruct (unet_3D ctx); simpl.
  - unfold step_3d. destruct (1 <? _); repeat constructor; done.
  - unfold Testing.step_2d.
    destruct (new_processed_file b (gt_filename s) last); simpl;
      [|constructor].
    destruct (_ && _); repeat constructor; done.
Qed.

(** On the 3D path every sample writes its own volume. *)
Lemma samples_loop_3d_files last_batch n smps smp_idx b :
  unet_3D ctx = true →
  length (written_files (samples_loop last_batch n smp_idx smps b).2)
  = length smps.
Proof.
  intros H3d. revert smp_idx b.
  induction smps as [|s smps IH]; intros smp_idx b; simpl; [done|].
  unfold Testing.step. rewrite H3d.
  specialize (IH (S smp_idx) b).
  destruct (samples_loop _ _ _ smps b) as [b2 evs2]. simpl in *.
  unfold written_files in *. rewrite flat_map_app, length_app, IH.
  unfold step_3d. simpl. destruct (1 <? _); simpl; lia.
Qed.

Lemma batches_loop_3d_files len_loader batches i b :
  unet_3D ctx = true →
  length (written_files (batches_loop len_loader i batches b).2)
  = length (stream batches).
Proof.
  intros H3d. revert i b.
  induction batches as [|smps batches IH]; intros i b; simpl; [done|].
  pose proof (samples_loop_3d_files
    (Z.of_nat i =? Z.of_nat len_loader - 1)%Z (length smps) smps 0 b H3d)
    as H1.
  destruct (samples_loop _ _ _ smps b) as [b1 evs1].
  specialize (IH (S i) b1).
  destruct (batches_loop _ _ batches b1) as [b2 evs2]. simpl in *.
  unfold written_files in *. rewrite flat_map_app, !length_app. lia.
Qed.

End Loops.

(** In the 2D path a pass over a loader whose last batch is not empty ends
    with the last sample alone in the buffers, and has written one slice
    less than it has read. *)
Lemma pass_2d_keeps_last_sample nib_fdata path_3Dpred ctx n_mc i_monteCarlo
    batches smps s :
  unet_3D ctx = false →
  let test_loader := batches ++ [smps ++ [s]] in
  let r := monteCarlo_pass nib_fdata path_3Dpred ctx n_mc i_monteCarlo
             test_loader in
  r.1 = Buffers [preds_idx_arr s i_monteCarlo] [slice_index s] (gt_filename s)
  ∧ saved_slices r.2 + 1 = length (stream test_loader).
Proof.
  intros H2d test_loader r.
  assert (H1 : r.1 = Buffers [preds_idx_arr s i_monteCarlo] [slice_index s]
                       (gt_filename s)).
  { apply batches_loop_last; [done | done | done]. }
  split; [done|].
  pose proof (batches_loop_count nib_fdata path_3Dpred ctx n_mc i_monteCarlo
                (length test_loader) test_loader 0 init_buffers H2d) as Hc.
  fold (monteCarlo_pass nib_fdata path_3Dpred ctx n_mc i_monteCarlo test_loader)
    in Hc. fold r in Hc. rewrite H1 in Hc. simpl in Hc. lia.
Qed.

(** C1, at the failing input. Keys A, A, B with the indices 0, 1, 0, then the
    end of the stream. The sample of B is the last one: it makes the loop
    write the two slices of A, and is appended to the emptied buffers, which
    nothing writes afterwards. One volume is saved, for A; none for B. *)
Theorem test_drops_last_volume :
  saved_volumes
    (test pred_to_nib_data no_uncertainty (context_2d true no_uncertainty)
       "log" loader_AAB)
  = [("data/A_seg.nii.gz", 2)]
  ∧ (monteCarlo_pass pred_to_nib_data "log/pred_masks"
       (context_2d true no_uncertainty) 1 0 loader_AAB).1
    = Buffers [two_labels (9 # 10) (3 # 10)] [0%Z] "data/B_seg.nii.gz".
Proof. split; vm_compute; reflexivity. Qed.

(** C10. In the 2D path every volume written holds at least one slice, with
    one index per slice; a sample that finds the buffers empty, as the first
    sample of a stream does, writes nothing; the buffers are empty after the
    flush, so that a step that flushes leaves the new sample alone in
    them. *)
Theorem flush_needs_slices nib_fdata testing_uncertainty ctx log_directory
    test_loader :
  unet_3D ctx = false →
  Forall nonempty_volume
    (test nib_fdata testing_uncertainty ctx log_directory test_loader)
  ∧ (∀ path n_mc i last s,
       (step nib_fdata path ctx n_mc i last init_buffers s).2 = [])
  ∧ (∀ path n_mc i b,
       pred_tmp_lst (flush nib_fdata path ctx n_mc i b).1 = []
       ∧ z_tmp_lst (flush nib_fdata path ctx n_mc i b).1 = [])
  ∧ (∀ path n_mc i last b s,
       (step nib_fdata path ctx n_mc i last b s).2 ≠ [] →
       pred_tmp_lst b ≠ []
       ∧ (step nib_fdata path ctx n_mc i last b s).1
         = Buffers [preds_idx_arr s i] [slice_index s] (gt_filename s)).
Proof.
  intros H2d. split_and!.
  - unfold test. apply Forall_app. split.
    + apply Forall_flat_map, Forall_forall. intros i _.
      unfold monteCarlo_pass.
      apply (batches_loop_ind nib_fdata _ ctx _ i aligned nonempty_volume);
        [by apply step_nonempty | done].
    + destruct (uncertainty_on _); repeat constructor.
  - intros. unfold step. rewrite H2d. done.
  - done.
  - intros path n_mc i last b s. unfold step. rewrite H2d.
    destruct b as [p z f]. unfold step_2d, new_processed_file. simpl.
    destruct p as [|a p]; simpl; [done|].
    destruct (negb (String.eqb (gt_filename s) f) || last); simpl; done.
Qed.

Lemma flush_needs_slices_witness :
  Forall nonempty_volume
    (test pred_to_nib_data no_uncertainty (context_2d true no_uncertainty)
       "log" loader_AAB).
Proof.
  apply (flush_needs_slices pred_to_nib_data no_uncertainty
           (context_2d true no_uncertainty) "log" loader_AAB).
  reflexivity.
Defined.

Lemma uncertainty_runs_nil tr :
  Forall (λ ev, ∀ f, ev ≠ run_uncertainty f) tr → uncertainty_runs tr = [].
Proof.
  induction 1 as [|ev tr Hev _ IH]; [done|].
  unfold uncertainty_runs in *. simpl. rewrite IH.
  destruct ev; try done. by destruct (Hev ifolder).
Qed.

Lemma uncertainty_runs_app tr1 tr2 :
  uncertainty_runs (tr1 ++ tr2) = uncertainty_runs tr1 ++ uncertainty_runs tr2.
Proof. unfold uncertainty_runs. apply flat_map_app. Qed.

Lemma uncertainty_runs_test nib_fdata testing_uncertainty ctx log_directory
    test_loader :
  uncertainty_runs
    (test nib_fdata testing_uncertainty ctx log_directory test_loader)
  = if uncertainty_on (ctx_uncertainty ctx)
    then [os_path_join log_directory "pred_masks"] else [].
Proof.
  unfold test. rewrite uncertainty_runs_app.
  rewrite (uncertainty_runs_nil (flat_map _ _)).
  - by destruct (uncertainty_on _).
  - apply Forall_flat_map, Forall_forall. intros i _. unfold monteCarlo_pass.
    apply (batches_loop_ind nib_fdata _ ctx _ i (λ _, True)
             (λ ev, ∀ f, ev ≠ run_uncertainty f));
      [intros; split; [done | apply step_no_uncertainty] | done].
Qed.

(** In every trace of [test] each written volume is followed by its color
    labels and no color labels are written elsewhere: on the 3D path they
    are present when the prediction has more than one label and are computed
    from the prediction itself; on the 2D path they are present when the
    written volume has four dimensions and more than one entry along the
    first, and are computed from the data of the written volume, which
    [pred_to_nib] received with the threshold 0.5 when [binarize_prediction]
    is set and -1 when it is not. *)
Lemma color_labels_follow_volume nib_fdata testing_uncertainty ctx
    log_directory test_loader :
  colored nib_fdata ctx
    (test nib_fdata testing_uncertainty ctx log_directory test_loader).
Proof.
  unfold test. apply colored_app.
  - induction (seq 0 _) as [|i l IH]; simpl; [constructor|].
    apply colored_app; [|done]. apply batches_loop_colored.
  - destruct (uncertainty_on _); repeat constructor.
Qed.

(** C4, at the failing input. 2D path, two labels, [binarize_prediction]
    set. Whatever [pred_to_nib] computes, the color labels of the volume of A
    are made from the data of the image it returns for the threshold 0.5,
    and not from the predictions; with the [pred_to_nib] of the
    specification these data are the values 1, 1, 0, 0 of the binarized
    volume, where the raw stack holds 0.7, 0.6, 0.2, 0.1. On the 3D path,
    with the same setting, [save_color_labels] receives the prediction as the
    network gave it. *)
Theorem color_labels_2d_binarized :
  (∀ nib_fdata,
     test nib_fdata no_uncertainty (context_2d true no_uncertainty)
       "log" loader_AAB
     = pred_to_nib
         [two_labels (7 # 10) (2 # 10); two_labels (6 # 10) (1 # 10)]
         [0%Z; 1%Z] "data/A_seg.nii.gz" "log/pred_masks/A_pred.nii.gz" 2
         kernel_2d (1 # 2)
       :: (let output_nii :=
             nib_fdata
               [two_labels (7 # 10) (2 # 10); two_labels (6 # 10) (1 # 10)]
               [0%Z; 1%Z] "data/A_seg.nii.gz" 2%Z kernel_2d (1 # 2)%Q in
           if ((length (shape output_nii) =? 4)
               && (1 <? hd 0 (shape output_nii)))%bool
           then [save_color_labels output_nii true "data/A_seg.nii.gz"
                   "log/pred_masks/A_pred_color.nii.gz" 2]
           else []))
  ∧ test pred_to_nib_data no_uncertainty (context_2d true no_uncertainty)
      "log" loader_AAB
    = [pred_to_nib
         [two_labels (7 # 10) (2 # 10); two_labels (6 # 10) (1 # 10)]
         [0%Z; 1%Z] "data/A_seg.nii.gz" "log/pred_masks/A_pred.nii.gz" 2
         kernel_2d (1 # 2);
       save_color_labels (NdArray [2; 1; 1; 2] [1%Q; 1%Q; 0%Q; 0%Q]) true
         "data/A_seg.nii.gz" "log/pred_masks/A_pred_color.nii.gz" 2]
  ∧ pred_to_nib_data
      [two_labels (7 # 10) (2 # 10); two_labels (6 # 10) (1 # 10)]
      [0%Z; 1%Z] "data/A_seg.nii.gz" 2 kernel_2d (-1 # 1)
    = NdArray [2; 1; 1; 2] [7 # 10; 6 # 10; 2 # 10; 1 # 10]%Q
  ∧ NdArray [2; 1; 1; 2] [1%Q; 1%Q; 0%Q; 0%Q]
    ≠ NdArray [2; 1; 1; 2] [7 # 10; 6 # 10; 2 # 10; 1 # 10]%Q
  ∧ (∀ nib_fdata,
       test nib_fdata no_uncertainty (context_3d true no_uncertainty)
         "log" loader_3d
       = [pred_to_nib
            [NdArray [2; 1; 1; 2] [7 # 10; 2 # 10; 6 # 10; 1 # 10]%Q] []
            "data/A_seg.nii.gz" "log/pred_masks/A_pred.nii.gz" 2 kernel_3d
            (1 # 2);
          save_color_labels
            (NdArray [2; 1; 1; 2] [7 # 10; 2 # 10; 6 # 10; 1 # 10]%Q) true
            "data/A_seg.nii.gz_input" "log/pred_masks/A_pred_color.nii.gz"
            2]).
Proof.
  split_and!.
  - intros nib_fdata. vm_compute.
    destruct (nib_fdata _ _ _ _ _ _) as [sh vals].
    repeat match goal with
           | |- context [if ?c then _ else _] => destruct c
           end; reflexivity.
  - vm_compute. reflexivity.
  - vm_compute. reflexivity.
  - done.
  - intros nib_fdata. vm_compute. reflexivity.
Qed.

(** When [context] carries the uncertainty settings of [testing_params],
    several passes are followed by the uncertainty computation. *)
Lemma uncertainty_runs_when_agree nib_fdata testing_uncertainty ctx
    log_directory test_loader :
  ctx_uncertainty ctx = testing_uncertainty →
  (1 < n_monteCarlo testing_uncertainty)%Z →
  uncertainty_runs
    (test nib_fdata testing_uncertainty ctx log_directory test_loader)
  = [os_path_join log_directory "pred_masks"].
Proof.
  intros Hagree Hn. rewrite uncertainty_runs_test, Hagree.
  destruct (n_monteCarlo_cases testing_uncertainty) as [(-> & _) | (_ & H1)];
    [done | lia].
Qed.

(** The passes can be counted on the 3D path, where every sample writes one
    volume: the loader is read [n_monteCarlo] times. *)
Lemma test_3d_passes nib_fdata testing_uncertainty ctx log_directory
    test_loader :
  unet_3D ctx = true →
  length (written_files
            (test nib_fdata testing_uncertainty ctx log_directory test_loader))
  = Z.to_nat (n_monteCarlo testing_uncertainty) * length (stream test_loader).
Proof.
  intros H3d. unfold test.
  assert (Hw : ∀ tr1 tr2,
             written_files (tr1 ++ tr2) = written_files tr1 ++ written_files tr2)
    by (intros; apply flat_map_app).
  rewrite Hw, length_app.
  replace (length (written_files (if uncertainty_on (ctx_uncertainty ctx)
             then [run_uncertainty (os_path_join log_directory "pred_masks")]
             else []))) with 0 by (by destruct (uncertainty_on _)).
  rewrite Nat.add_0_r.
  generalize (Z.to_nat (n_monteCarlo testing_uncertainty)) as n.
  generalize 0 as start.
  intros start n. revert start.
  induction n as [|n IH]; intros start; simpl; [done|].
  rewrite Hw, length_app, IH. unfold monteCarlo_pass.
  by rewrite batches_loop_3d_files.
Qed.

(** The 3D path on a prediction of two labels, [binarize_prediction] set:
    the color labels are computed from the prediction as the network gave
    it. *)
Example color_labels_3d_raw :
  test pred_to_nib_data no_uncertainty (context_3d true no_uncertainty)
    "log" loader_3d
  = [pred_to_nib [NdArray [2; 1; 1; 2] [7 # 10; 2 # 10; 6 # 10; 1 # 10]%Q] []
       "data/A_seg.nii.gz" "log/pred_masks/A_pred.nii.gz" 2 kernel_3d (1 # 2);
     save_color_labels
       (NdArray [2; 1; 1; 2] [7 # 10; 2 # 10; 6 # 10; 1 # 10]%Q) true
       "data/A_seg.nii.gz_input" "log/pred_masks/A_pred_color.nii.gz" 2].
Proof. vm_compute. reflexivity. Qed.

(** C5, at the failing input. [testing_params] asks for two epistemic
    passes; the [context] the last test reads has no uncertainty settings
    switched on. Two passes run and write the volume of A under the names
    ending in _00 and _01, and no uncertainty computation follows. In
    general the computation runs when the settings of [context] say so,
    whatever the number of passes was. *)
Theorem uncertainty_reads_context :
  (n_monteCarlo (Uncertainty true false 2) = 2%Z
   ∧ written_files
       (test pred_to_nib_data (Uncertainty true false 2)
          (context_2d false no_uncertainty) "log" loader_AAB)
     = ["log/pred_masks/A_pred_00.nii.gz"; "log/pred_masks/A_pred_01.nii.gz"]
   ∧ uncertainty_runs
       (test pred_to_nib_data (Uncertainty true false 2)
          (context_2d false no_uncertainty) "log" loader_AAB)
     = [])
  ∧ (∀ nib_fdata testing_uncertainty ctx log_directory test_loader,
       uncertainty_runs
         (test nib_fdata testing_uncertainty ctx log_directory test_loader)
       = if uncertainty_on (ctx_uncertainty ctx)
         then [os_path_join log_directory "pred_masks"] else []).
Proof.
  split; [split_and!; vm_compute; reflexivity |].
  intros. apply uncertainty_runs_test.
Qed.

End TestingFacts.

Module DropoutMore.
Import Dropout DropoutFacts.

(** X1. [dropout_input] never does anything else than overwrite channels
    with zeros: whatever the sample and the draws, the ground truth is the
    one given, the channels are as many, and each channel comes back as it
    was or as zeros of the same size. *)
Theorem dropout_input_only_zeroes (sp sp' : seg_pair) (tp tp' : tape) log :
  dropout_input sp tp = Some (sp', log, tp') →
  gt sp' = gt sp
  ∧ length (input sp') = length (input sp)
  ∧ (∀ j c, input sp !! j = Some c →
       input sp' !! j = Some c ∨ input sp' !! j = Some (zeros_like c))
  ∧ (∀ j c c', input sp !! j = Some c → input sp' !! j = Some c' →
       length c' = length c).
Proof.
  intros H.
  assert (Hcases : sp' = sp
                   ∨ ∃ idx, sp' = SegPair (zero_at idx (input sp)) (gt sp)).
  { revert H. unfold dropout_input.
    case_bool_decide; [|intros [= <- _ _]; by left].
    destruct (randint _ _ _) as [[nd tp1]|]; [|done].
    case_bool_decide.
    - destruct (select_dropped _ _ _ _ _) as [[idx tp2]|]; [|done].
      intros [= <- _ _]. right. by eexists.
    - intros [= <- _ _]. right. by eexists. }
  destruct Hcases as [-> | [idx ->]].
  - split_and!; [done | done | intros; by left |]. intros j c c' ? ?. congruence.
  - simpl. split_and!; [done | apply length_zero_at | |].
    + intros j c Hj. rewrite lookup_zero_at, Hj. simpl.
      case_bool_decide; [by right | by left].
    + intros j c c' Hj. rewrite lookup_zero_at, Hj. simpl.
      case_bool_decide; intros [= <-]; [|done].
      unfold zeros_like. apply length_map.
Qed.

Lemma dropout_input_only_zeroes_witness :
  gt (SegPair [[0; 0]; [3; 4]]%Z []) = gt (SegPair [[1; 2]; [3; 4]]%Z [])
  ∧ length (input (SegPair [[0; 0]; [3; 4]]%Z []))
    = length (input (SegPair [[1; 2]; [3; 4]]%Z [])).
Proof.
  destruct (dropout_input_only_zeroes
              (SegPair [[1; 2]; [3; 4]]%Z []) (SegPair [[0; 0]; [3; 4]]%Z [])
              [1; 0] [] [])
    as (Hgt & Hlen & _); [vm_compute; reflexivity|].
  split; [exact Hgt | exact Hlen].
Defined.

(** X2. When the count drawn does not exceed the number of constant
    channels, zero included, one draw is consumed, every constant channel is
    overwritten with zeros and every channel with signal is kept. *)
Theorem dropout_input_small_count (sp : seg_pair) (n_dropped : nat)
    (rest : tape) :
  1 < length (input sp) →
  n_dropped ≤ length (input sp) - 1 →
  n_dropped ≤ length (idx_empty_of (input sp)) →
  ∃ out,
    dropout_input sp (n_dropped :: rest) = Some (SegPair out (gt sp), [], rest)
    ∧ length out = length (input sp)
    ∧ ∀ j c, input sp !! j = Some c →
        (has_signal c → out !! j = Some c)
        ∧ (¬ has_signal c → out !! j = Some (zeros_like c)).
Proof.
  intros HC Hn He. exists (zero_at (idx_empty_of (input sp)) (input sp)).
  split_and!.
  - unfold dropout_input. rewrite bool_decide_eq_true_2 by done. simpl.
    rewrite bool_decide_eq_true_2 by lia.
    rewrite bool_decide_eq_false_2 by lia. done.
  - apply length_zero_at.
  - intros j c Hj. rewrite lookup_zero_at, Hj. simpl. split; intros Hs.
    + rewrite bool_decide_eq_false_2; [done|].
      rewrite elem_of_idx_empty. intros (c' & Hc' & Hn'). congruence.
    + rewrite bool_decide_eq_true_2; [done|].
      rewrite elem_of_idx_empty. by exists c.
Qed.

Lemma dropout_input_small_count_witness :
  ∃ out,
    dropout_input (SegPair [[1; 2]; [5; 5]]%Z []) [0; 1]
      = Some (SegPair out [], [], [1])
    ∧ out !! 1 = Some [0; 0]%Z.
Proof.
  destruct (dropout_input_small_count (SegPair [[1; 2]; [5; 5]]%Z []) 0 [1])
    as (out & Hrun & _ & Hch); [simpl; lia | simpl; lia | vm_compute; lia |].
  exists out. split; [exact Hrun|].
  destruct (Hch 1 [5; 5]%Z eq_refl) as [_ Hz].
  apply Hz. vm_compute. lia.
Defined.

Lemma zeros_like_changes c : has_signal c → zeros_like c ≠ c.
Proof.
  intros Hs Heq. apply (zero_channel_no_signal c); [|done].
  rewrite <- Heq. apply zero_channel_zeros_like.
Qed.

(** X3. When the count drawn exceeds the number of constant channels, the
    constant channels are left as they are, also those that are not zero,
    and the channels overwritten all carried signal: at least one of them,
    and at most the count minus the number of constant channels. *)
Theorem dropout_input_large_count (sp sp' : seg_pair) (n_dropped : nat)
    (rest tp' : tape) log :
  1 < length (input sp) →
  length (idx_empty_of (input sp)) < n_dropped →
  dropout_input sp (n_dropped :: rest) = Some (sp', log, tp') →
  (∀ j c, input sp !! j = Some c → ¬ has_signal c → input sp' !! j = Some c)
  ∧ ∃ changed : list nat,
      NoDup changed
      ∧ (∀ j, j ∈ changed ↔
              ∃ c, input sp !! j = Some c ∧ has_signal c
                   ∧ input sp' !! j = Some (zeros_like c))
      ∧ (∀ j, j ∉ changed → input sp' !! j = input sp !! j)
      ∧ 1 ≤ length changed ≤ n_dropped - length (idx_empty_of (input sp)).
Proof.
  intros HC Hgt. unfold dropout_input.
  rewrite bool_decide_eq_true_2 by done. simpl.
  case_bool_decide as Hnd; [|done].
  rewrite bool_decide_eq_true_2 by done.
  destruct (select_dropped _ _ _ _ _) as [[picks tp2]|] eqn:Hsel; [|done].
  intros [= <- _ _]. simpl.
  apply select_dropped_spec in Hsel as (Hlen & extra & Hout & Hall).
  simpl in Hout. subst extra.
  assert (Hpick : ∀ j, j ∈ picks →
            ∃ c, input sp !! j = Some c ∧ has_signal c).
  { intros j Hj. rewrite Forall_forall in Hall. destruct (Hall j Hj) as [Hne Hlt].
    destruct (lookup_lt_is_Some_2 (input sp) j) as [c Hc]; [lia|].
    exists c. split; [done|].
    destruct (decide (has_signal c)) as [|Hns]; [done|].
    exfalso. apply Hne. rewrite elem_of_idx_empty. by exists c. }
  split.
  - intros j c Hj Hns. rewrite lookup_zero_at, Hj. simpl.
    rewrite bool_decide_eq_false_2; [done|].
    intros Hin. destruct (Hpick j Hin) as (c' & Hc' & Hs). congruence.
  - exists (remove_dups picks). split_and!.
    + apply NoDup_remove_dups.
    + intros j. rewrite elem_of_remove_dups. split.
      * intros Hin. destruct (Hpick j Hin) as (c & Hc & Hs).
        exists c. split_and!; [done | done |].
        rewrite lookup_zero_at, Hc. simpl. by rewrite bool_decide_eq_true_2.
      * intros (c & Hc & Hs & Hz). rewrite lookup_zero_at, Hc in Hz.
        simpl in Hz. case_bool_decide; [done|].
        injection Hz as Hz. symmetry in Hz. by apply zeros_like_changes in Hz.
    + intros j Hj. rewrite elem_of_remove_dups in Hj.
      rewrite lookup_zero_at. destruct (input sp !! j); [|done]. simpl.
      by rewrite bool_decide_eq_false_2.
    + destruct picks as [|p picks]; [simpl in Hlen; lia|].
      assert (Hin : p ∈ remove_dups (p :: picks))
        by (apply elem_of_remove_dups; left).
      destruct (remove_dups (p :: picks)); [inversion Hin | simpl; lia].
    + rewrite <- Hlen. apply submseteq_length, NoDup_submseteq;
        [apply NoDup_remove_dups | intros x; by rewrite elem_of_remove_dups].
Qed.

Lemma dropout_input_large_count_witness :
  input (SegPair [[0; 0]; [3; 4]; [5; 5]]%Z []) !! 2 = Some [5; 5]%Z.
Proof.
  destruct (dropout_input_large_count
              (SegPair [[1; 2]; [3; 4]; [5; 5]]%Z [])
              (SegPair [[0; 0]; [3; 4]; [5; 5]]%Z []) 2 [0] [] [])
    as [Hconst _]; [simpl; lia | vm_compute; lia | vm_compute; reflexivity |].
  apply (Hconst 2 [5; 5]%Z); [reflexivity | vm_compute; lia].
Defined.

End DropoutMore.

Module VolumesFacts.
Import Testing Volumes TestingFacts.

Lemma written_app tr1 tr2 : written (tr1 ++ tr2) = written tr1 ++ written tr2.
Proof. unfold written. apply flat_map_app. Qed.

Section Runs.

Variable nib_fdata :
  list ndarray -> list Z -> string -> Z -> kernel -> Q -> ndarray.
Variable path_3Dpred : string.
Variable ctx : context.
Variable n_mc : Z.
Variable i_monteCarlo : nat.
Hypothesis H2d : unet_3D ctx = false.

Abbreviation tracked := (Volumes.tracked i_monteCarlo).

Lemma step_tracked last b s tr read :
  tracked b tr read →
  tracked (step nib_fdata path_3Dpred ctx n_mc i_monteCarlo last b s).1
    (tr ++ (step nib_fdata path_3Dpred ctx n_mc i_monteCarlo last b s).2)
    (read ++ [s]).
Proof.
  intros (runs & rest & Hw & Hruns & Hread & Hp & Hz & Hk).
  unfold Volumes.tracked, holds, step. rewrite H2d. unfold step_2d, new_processed_file.
  destruct b as [p z f]. simpl in *.
  destruct p as [|a p]; simpl.
  - destruct rest; [|done]. simpl in Hz. subst z.
    exists runs, [s]. rewrite app_nil_r.
    split_and!; [done | done | by rewrite <- Hread, app_nil_r | done | done |].
    by repeat constructor.
  - destruct (negb (String.eqb (gt_filename s) f) || last) eqn:Hg; simpl.
    + exists (runs ++ [(f, rest)]), [s].
      split_and!; [| | | done | done | by repeat constructor].
      * rewrite written_app, Hw, map_app. f_equal.
        unfold written. simpl.
        destruct (_ && _); simpl; unfold volume_of_run; simpl;
          by rewrite Hp, Hz.
      * apply Forall_app. split; [done|]. constructor; [|constructor].
        split; [|done]. simpl. by destruct rest.
      * rewrite map_app, concat_app. simpl.
        by rewrite app_nil_r, <- app_assoc, <- Hread, <- app_assoc.
    + exists runs, (rest ++ [s]). rewrite app_nil_r.
      apply orb_false_iff in Hg as [Hg _].
      apply negb_false_iff, String.eqb_eq in Hg.
      split_and!; [done | done | by rewrite app_assoc, Hread
                  | by rewrite map_app, <- Hp | by rewrite map_app, <- Hz |].
      apply Forall_app. split; [by rewrite Hg | by repeat constructor].
Qed.

Lemma samples_loop_tracked last_batch n smps smp_idx b tr read :
  tracked b tr read →
  tracked
    (samples_loop nib_fdata path_3Dpred ctx n_mc i_monteCarlo last_batch n
       smp_idx smps b).1
    (tr ++ (samples_loop nib_fdata path_3Dpred ctx n_mc i_monteCarlo
              last_batch n smp_idx smps b).2)
    (read ++ smps).
Proof.
  revert smp_idx b tr read.
  induction smps as [|s smps IH]; intros smp_idx b tr read Hb; simpl.
  - by rewrite !app_nil_r.
  - pose proof (step_tracked
      (last_batch && (Z.of_nat smp_idx =? Z.of_nat n - 1)%Z) b s tr read Hb)
      as H1.
    destruct (step _ _ _ _ _ _ b s) as [b1 evs1]. simpl in H1.
    specialize (IH (S smp_idx) b1 _ _ H1).
    destruct (samples_loop _ _ _ _ _ _ _ _ smps b1) as [b2 evs2].
    simpl in *. rewrite <- !app_assoc in IH. exact IH.
Qed.

Lemma batches_loop_tracked len_loader batches i b tr read :
  tracked b tr read →
  tracked
    (batches_loop nib_fdata path_3Dpred ctx n_mc i_monteCarlo len_loader i
       batches b).1
    (tr ++ (batches_loop nib_fdata path_3Dpred ctx n_mc i_monteCarlo
              len_loader i batches b).2)
    (read ++ stream batches).
Proof.
  revert i b tr read.
  induction batches as [|smps batches IH]; intros i b tr read Hb; simpl.
  - by rewrite !app_nil_r.
  - pose proof (samples_loop_tracked
      (Z.of_nat i =? Z.of_nat len_loader - 1)%Z (length smps) smps 0 b tr
      read Hb) as H1.
    destruct (samples_loop _ _ _ _ _ _ _ _ smps b) as [b1 evs1]. simpl in H1.
    specialize (IH (S i) b1 _ _ H1).
    destruct (batches_loop _ _ _ _ _ _ _ batches b1) as [b2 evs2].
    simpl in *. rewrite <- !app_assoc in IH. exact IH.
Qed.

End Runs.

Lemma pass_tracked nib_fdata path_3Dpred ctx n_mc i_monteCarlo test_loader :
  unet_3D ctx = false →
  tracked i_monteCarlo
    (monteCarlo_pass nib_fdata path_3Dpred ctx n_mc i_monteCarlo test_loader).1
    (monteCarlo_pass nib_fdata path_3Dpred ctx n_mc i_monteCarlo test_loader).2
    (stream test_loader).
Proof.
  intros H2d.
  apply (batches_loop_tracked nib_fdata path_3Dpred ctx n_mc i_monteCarlo H2d
           (length test_loader) test_loader 0 init_buffers [] []).
  exists [], []. unfold holds. simpl. split_and!; done.
Qed.

(** X4. On the 2D path a pass writes runs of samples, cut out of the stream
    in its order: each volume written holds the predictions and the indices
    of consecutive samples that all carry the key it is written under, no
    sample is written twice, and the samples read and not written are those
    the buffers hold when the pass ends. *)
Theorem pass_2d_writes_runs nib_fdata path_3Dpred ctx n_mc i_monteCarlo
    test_loader :
  unet_3D ctx = false →
  let r := monteCarlo_pass nib_fdata path_3Dpred ctx n_mc i_monteCarlo
             test_loader in
  ∃ runs rest,
    written r.2 = map (volume_of_run i_monteCarlo) runs
    ∧ Forall run_of_key runs
    ∧ concat (map snd runs) ++ rest = stream test_loader
    ∧ holds i_monteCarlo r.1 rest.
Proof.
  intros H2d r. by apply pass_tracked.
Qed.

Lemma pass_2d_writes_runs_witness :
  ∃ runs rest,
    written (monteCarlo_pass pred_to_nib_data "log/pred_masks"
               (context_2d true no_uncertainty) 1 0 loader_AAB).2
    = map (volume_of_run 0) runs
    ∧ concat (map snd runs) ++ rest = stream loader_AAB.
Proof.
  destruct (pass_2d_writes_runs pred_to_nib_data "log/pred_masks"
              (context_2d true no_uncertainty) 1 0 loader_AAB eq_refl)
    as (runs & rest & Hw & _ & Hs & _).
  exists runs, rest. split; [exact Hw | exact Hs].
Defined.

(** X5. On the 2D path, a pass over a loader whose last batch is not empty
    writes every sample of the stream but the last, in runs of one key, and
    ends with the last sample alone in the buffers: its prediction is in no
    file. *)
Theorem pass_2d_misses_last_sample nib_fdata path_3Dpred ctx n_mc
    i_monteCarlo batches smps s :
  unet_3D ctx = false →
  let r := monteCarlo_pass nib_fdata path_3Dpred ctx n_mc i_monteCarlo
             (batches ++ [smps ++ [s]]) in
  ∃ runs,
    written r.2 = map (volume_of_run i_monteCarlo) runs
    ∧ Forall run_of_key runs
    ∧ concat (map snd runs) = stream batches ++ smps
    ∧ r.1 = Buffers [preds_idx_arr s i_monteCarlo] [slice_index s]
              (gt_filename s).
Proof.
  intros H2d r.
  destruct (pass_tracked nib_fdata path_3Dpred ctx n_mc i_monteCarlo
              (batches ++ [smps ++ [s]]) H2d)
    as (runs & rest & Hw & Hruns & Hs & Hp & _).
  destruct (pass_2d_keeps_last_sample nib_fdata path_3Dpred ctx n_mc
              i_monteCarlo batches smps s H2d) as [Hb _].
  fold r in Hw, Hp, Hb. exists runs. split_and!; [done | done | | done].
  rewrite Hb in Hp. simpl in Hp.
  destruct rest as [|s' [|s'' rest]]; [done | | done].
  unfold stream in *. rewrite concat_app in Hs. simpl in Hs.
  rewrite app_nil_r, app_assoc in Hs. by apply app_inj_tail in Hs as [? _].
Qed.

Lemma pass_2d_misses_last_sample_witness :
  (monteCarlo_pass pred_to_nib_data "log/pred_masks"
     (context_2d true no_uncertainty) 1 0 loader_AAB).1
  = Buffers [two_labels (9 # 10) (3 # 10)] [0%Z] "data/B_seg.nii.gz".
Proof.
  destruct (pass_2d_misses_last_sample pred_to_nib_data "log/pred_masks"
              (context_2d true no_uncertainty) 1 0
              [[slice_of "data/A_seg.nii.gz" 0 (7 # 10) (2 # 10);
                slice_of "data/A_seg.nii.gz" 1 (6 # 10) (1 # 10)]]
              [] (slice_of "data/B_seg.nii.gz" 0 (9 # 10) (3 # 10)) eq_refl)
    as (runs & _ & _ & _ & Hb).
  exact Hb.
Defined.

Section Whole.

Variable nib_fdata :
  list ndarray -> list Z -> string -> Z -> kernel -> Q -> ndarray.
Variable path_3Dpred : string.
Variable ctx : context.
Variable n_mc : Z.
Variable i_monteCarlo : nat.
Hypothesis H3d : unet_3D ctx = true.

Lemma samples_loop_3d last_batch n smps smp_idx b :
  written (samples_loop nib_fdata path_3Dpred ctx n_mc i_monteCarlo
             last_batch n smp_idx smps b).2
  = map (volume_3d i_monteCarlo) smps
  ∧ (samples_loop nib_fdata path_3Dpred ctx n_mc i_monteCarlo
       last_batch n smp_idx smps b).1 = b.
Proof.
  revert smp_idx. induction smps as [|s smps IH]; intros smp_idx; simpl;
    [done|].
  unfold step. rewrite H3d. specialize (IH (S smp_idx)).
  destruct (samples_loop _ _ _ _ _ _ _ _ smps b) as [b2 evs2]. simpl in *.
  destruct IH as [IH ->]. split; [|done].
  rewrite written_app, IH. unfold step_3d, written. simpl.
  by destruct (1 <? _).
Qed.

Lemma batches_loop_3d len_loader batches i b :
  written (batches_loop nib_fdata path_3Dpred ctx n_mc i_monteCarlo
             len_loader i batches b).2
  = map (volume_3d i_monteCarlo) (stream batches)
  ∧ (batches_loop nib_fdata path_3Dpred ctx n_mc i_monteCarlo
       len_loader i batches b).1 = b.
Proof.
  revert i. induction batches as [|smps batches IH]; intros i; simpl; [done|].
  pose proof (samples_loop_3d
    (Z.of_nat i =? Z.of_nat len_loader - 1)%Z (length smps) smps 0 b)
    as [H1 Hb1].
  destruct (samples_loop _ _ _ _ _ _ _ _ smps b) as [b1 evs1]. simpl in *.
  subst b1. specialize (IH (S i)).
  destruct (batches_loop _ _ _ _ _ _ _ batches b) as [b2 evs2]. simpl in *.
  destruct IH as [IH ->]. split; [|done].
  by rewrite written_app, H1, IH, map_app.
Qed.

End Whole.

(** X6. On the 3D path [test] writes one volume per sample and per pass, in
    the order of the loader: the volume holds the prediction of the sample
    alone, with no slice index, under the key of the sample; nothing is
    accumulated. *)
Theorem test_3d_writes_every_sample nib_fdata testing_uncertainty ctx
    log_directory test_loader :
  unet_3D ctx = true →
  written (test nib_fdata testing_uncertainty ctx log_directory test_loader)
  = flat_map
      (fun i_monteCarlo => map (volume_3d i_monteCarlo) (stream test_loader))
      (seq 0 (Z.to_nat (n_monteCarlo testing_uncertainty))).
Proof.
  intros H3d. unfold test. rewrite written_app.
  replace (written (if uncertainty_on (ctx_uncertainty ctx)
             then [run_uncertainty (os_path_join log_directory "pred_masks")]
             else [])) with (@nil (string * list ndarray * list Z))
    by (by destruct (uncertainty_on _)).
  rewrite app_nil_r.
  induction (seq 0 _) as [|i l IH]; simpl; [done|].
  rewrite written_app, IH. f_equal. unfold monteCarlo_pass.
  by apply batches_loop_3d.
Qed.

Lemma test_3d_writes_every_sample_witness :
  length (written (test pred_to_nib_data (Uncertainty true false 3)
                     (context_3d false no_uncertainty) "log" loader_3d))
  = 3.
Proof.
  rewrite (test_3d_writes_every_sample pred_to_nib_data
             (Uncertainty true false 3) (context_3d false no_uncertainty)
             "log" loader_3d eq_refl).
  reflexivity.
Defined.

(** X7. With more than one Monte-Carlo pass, the file a volume is written
    to ends in an underscore, the number of the pass on two digits at least
    and the extension, after a stem that is the same for all passes: two
    passes never write a volume of one source to the same file. *)
Theorem pass_file_names_distinct path_3Dpred ctx n_mc fname :
  (1 < n_mc)%Z →
  ∃ stem,
    (∀ i, fname_pred_of path_3Dpred ctx n_mc i fname
          = String.append stem
              (String.append "_"
                 (String.append (zfill 2 (str i)) ".nii.gz")))
    ∧ (∀ i j, i ≠ j →
         fname_pred_of path_3Dpred ctx n_mc i fname
         ≠ fname_pred_of path_3Dpred ctx n_mc j fname).
Proof.
  intros Hn.
  exists (split_first ".nii.gz"
            (String.append
               (split_first (target_suffix_0 ctx)
                  (os_path_join path_3Dpred (split_last fname)))
               "_pred.nii.gz")).
  split.
  - intros i. unfold fname_pred_of.
    by replace (1 <? n_mc)%Z with true by (symmetry; apply Z.ltb_lt; lia).
  - intros i j Hij Heq. by apply fname_pred_of_pass_inj in Heq.
Qed.

Lemma pass_file_names_distinct_witness :
  fname_pred_of "log/pred_masks" (context_2d false no_uncertainty) 2 0
    "data/A_seg.nii.gz"
  ≠ fname_pred_of "log/pred_masks" (context_2d false no_uncertainty) 2 1
      "data/A_seg.nii.gz".
Proof.
  destruct (pass_file_names_distinct "log/pred_masks"
              (context_2d false no_uncertainty) 2 "data/A_seg.nii.gz")
    as (stem & _ & Hd); [lia|].
  apply Hd. lia.
Defined.

End VolumesFacts.

Module NamesFacts.
Import Testing Names.

Lemma append_cons x a b :
  String.append (String x a) b = String x (String.append a b).
Proof. reflexivity. Qed.

Lemma append_nil_l a : String.append "" a = a.
Proof. reflexivity. Qed.

Lemma append_assoc (a b c : string) :
  String.append (String.append a b) c = String.append a (String.append b c).
Proof.
  induction a as [|x a IH]; [done|]. rewrite !append_cons. by rewrite IH.
Qed.

Lemma append_nil_r (a : string) : String.append a "" = a.
Proof.
  induction a as [|x a IH]; [done|]. rewrite append_cons. by rewrite IH.
Qed.

Lemma prefix_nil_false sep : sep ≠ "" → String.prefix sep "" = false.
Proof. by destruct sep. Qed.

(** X8. [s.split(sep)[0]]: the string returned is the beginning of [s]; what
    follows it is empty or starts with the separator; and the separator
    starts nowhere inside it. *)
Theorem split_first_spec (sep s : string) :
  sep ≠ "" →
  ∃ rest,
    s = String.append (split_first sep s) rest
    ∧ (rest = "" ∨ String.prefix sep rest = true)
    ∧ ∀ p q, split_first sep s = String.append p q → q ≠ "" →
        String.prefix sep (String.append q rest) = false.
Proof.
  intros Hsep. induction s as [|c s IH].
  - exists "".
    assert (Hsf : split_first sep "" = "")
      by (destruct sep; [congruence | reflexivity]).
    rewrite Hsf. split_and!; [done | by left |]. intros p q H.
    destruct p; destruct q; done.
  - destruct (String.prefix sep (String c s)) eqn:Hp.
    + exists (String c s).
      assert (Hsf : split_first sep (String c s) = "").
      { change (split_first sep (String c s))
          with (if String.prefix sep (String c s) then ""
                else String c (split_first sep s)).
        by rewrite Hp. }
      rewrite Hsf. split_and!; [done | by right |].
      intros p q H. destruct p; destruct q; done.
    + destruct IH as (rest & Hs & Hrest & Hin). exists rest.
      assert (Hsf : split_first sep (String c s)
                    = String c (split_first sep s)).
      { change (split_first sep (String c s))
          with (if String.prefix sep (String c s) then ""
                else String c (split_first sep s)).
        by rewrite Hp. }
      rewrite Hsf. split_and!; [rewrite append_cons; by rewrite <- Hs | done |].
      intros p q H Hq. destruct p as [|c' p].
      * rewrite append_nil_l in H. subst q. rewrite append_cons.
        by rewrite <- Hs.
      * rewrite append_cons in H. injection H as _ H. by apply (Hin p).
Qed.

Lemma split_first_spec_witness :
  ∃ rest,
    "log/pred_masks/A_seg.nii.gz"
    = String.append (split_first "_seg" "log/pred_masks/A_seg.nii.gz") rest
    ∧ (rest = "" ∨ String.prefix "_seg" rest = true).
Proof.
  destruct (split_first_spec "_seg" "log/pred_masks/A_seg.nii.gz")
    as (rest & Hs & Hr & _); [discriminate|].
  exists rest. split; [exact Hs | exact Hr].
Defined.

Lemma contains_append c a b :
  contains c (String.append a b) = (contains c a || contains c b)%bool.
Proof.
  induction a as [|x a IH]; [done|]. rewrite append_cons. cbn.
  rewrite IH. by rewrite orb_assoc.
Qed.

Lemma split_last_from_spec cur s :
  contains "/" cur = false →
  contains "/" (split_last_from cur s) = false
  ∧ ∃ dir,
      String.append cur s = String.append dir (split_last_from cur s)
      ∧ (dir = "" ∨ ∃ d, dir = String.append d "/").
Proof.
  revert cur. induction s as [|c s IH]; intros cur Hcur; cbn.
  - split; [done|]. exists "". split; [by rewrite append_nil_r | by left].
  - destruct (Ascii.eqb c "/") eqn:Hc.
    + apply Ascii.eqb_eq in Hc. subst c.
      destruct (IH "" eq_refl) as (Hno & dir & Hd & Hdir).
      split; [done|]. rewrite append_nil_l in Hd.
      exists (String.append cur (String "/" dir)). split.
      * by rewrite append_assoc, append_cons, <- Hd.
      * right. destruct Hdir as [-> | [d ->]].
        -- by exists cur.
        -- exists (String.append cur (String "/" d)).
           by rewrite append_assoc, append_cons.
    + destruct (IH (String.append cur (String c ""))) as (Hno & dir & Hd & Hdir).
      { rewrite contains_append, Hcur. cbn. by rewrite Hc. }
      split; [done|]. exists dir. split; [|done].
      rewrite <- Hd. by rewrite append_assoc, append_cons, append_nil_l.
Qed.

Lemma split_last_from_no_slash cur s :
  contains "/" s = false → split_last_from cur s = String.append cur s.
Proof.
  revert cur. induction s as [|c s IH]; intros cur Hs; cbn.
  - by rewrite append_nil_r.
  - cbn in Hs. apply orb_false_iff in Hs as [Hc Hs]. rewrite Hc.
    rewrite IH by done. by rewrite append_assoc, append_cons, append_nil_l.
Qed.

Lemma split_last_dir cur dir base :
  contains "/" base = false →
  split_last_from cur (String.append dir (String "/" base)) = base.
Proof.
  intros Hb. revert cur. induction dir as [|c dir IH]; intros cur.
  - rewrite append_nil_l. cbn. by apply split_last_from_no_slash.
  - rewrite append_cons. cbn. destruct (Ascii.eqb c "/"); apply IH.
Qed.

(** X9. [s.split('/')[-1]]: the string returned is the end of [s], holds no
    slash, and what precedes it is empty or ends with a slash. The file a
    prediction is written to is computed from it: the directory of the
    source file plays no part, so that two source files of the same name in
    two directories are written to the same file. *)
Theorem split_last_spec (s : string) :
  contains "/" (split_last s) = false
  ∧ (∃ dir, s = String.append dir (split_last s)
            ∧ (dir = "" ∨ ∃ d, dir = String.append d "/"))
  ∧ (∀ path_3Dpred ctx n_mc i dir1 dir2 base,
       contains "/" base = false →
       fname_pred_of path_3Dpred ctx n_mc i
         (String.append dir1 (String "/" base))
       = fname_pred_of path_3Dpred ctx n_mc i
           (String.append dir2 (String "/" base))).
Proof.
  split_and!.
  - by apply split_last_from_spec.
  - destruct (split_last_from_spec "" s eq_refl) as (_ & dir & Hd & Hdir).
    by exists dir.
  - intros. unfold fname_pred_of, split_last. by rewrite !split_last_dir.
Qed.

Lemma split_last_spec_witness :
  fname_pred_of "log/pred_masks" (context_2d true no_uncertainty) 1 0
    "site1/A_seg.nii.gz"
  = fname_pred_of "log/pred_masks" (context_2d true no_uncertainty) 1 0
      "site2/A_seg.nii.gz".
Proof.
  destruct (split_last_spec "") as (_ & _ & H).
  apply (H "log/pred_masks" (context_2d true no_uncertainty) 1%Z 0
           "site1" "site2" "A_seg.nii.gz").
  reflexivity.
Defined.

End NamesFacts.

Module LoaderMore.
Import Loader LoaderFacts.

(** X10. [load_dataset] raises a [KeyError] exactly when [model_params]
    lacks a key the dispatch reads, and reports the first one it misses:
    ["name"]; then, for a volumetric model only, ["length_3D"] and
    ["stride_3D"]. *)
Theorem load_dataset_fails_on_missing_key (a : arguments) (σ : store)
    (k : string) :
  (load_dataset a σ).2 = KeyError k ↔
    (k = "name" ∧ model_params a !! "name" = None)
    ∨ (volumetric (model_params a) = true
       ∧ k = "length_3D" ∧ model_params a !! "length_3D" = None)
    ∨ (volumetric (model_params a) = true
       ∧ k = "stride_3D" ∧ is_Some (model_params a !! "length_3D")
       ∧ model_params a !! "stride_3D" = None).
Proof.
  unfold load_dataset. simpl.
  pose proof (build_dataset_cases a (enforce_no_roi_filter a σ)) as H.
  unfold build_dataset, Bids3DDataset_init, new_SliceFilter in *.
  destruct (model_params a !! "name") as [name|] eqn:Hname.
  - rewrite (volumetric_is_3d _ name Hname) in *.
    destruct (is_3d name (model_params a)).
    + destruct (model_params a !! "length_3D") eqn:Hl.
      * destruct (model_params a !! "stride_3D") eqn:Hs.
        -- split; [done|].
           intros [[_ ?] | [(_ & _ & ?) | (_ & _ & _ & ?)]]; done.
        -- split.
           ++ intros [= <-]. right. right.
              split_and!; [done | done | by eexists | done].
           ++ intros [[_ ?] | [(_ & _ & ?) | (_ & -> & _)]]; done.
      * split.
        -- intros [= <-]. right. left. done.
        -- intros [[_ ?] | [(_ & -> & _) | (_ & _ & [? ?] & _)]]; done.
    + destruct (eq_str name "HeMISUnet");
        destruct (slice_filter_params a !! "device");
        destruct (slice_filter_params a !! "cuda_available");
        (split; [done|]; intros [[_ ?] | [(? & _) | (? & _)]]; done).
  - split.
    + intros [= <-]. by left.
    + unfold volumetric. rewrite Hname.
      intros [[-> _] | [(? & _) | (? & _)]]; done.
Qed.

(** X11. The write to [roi_params] comes before the dispatch: a call that
    fails for want of a model name has already set ["slice_filter_roi"] to
    [None] in the caller's dictionary. *)
Theorem load_dataset_fails_after_write (a : arguments) (σ : store) (d : dict) :
  transforms_params a !! "ROICrop" = None →
  σ !! roi_params a = Some d →
  model_params a !! "name" = None →
  load_dataset a σ
  = (<[roi_params a := <["slice_filter_roi" := PyNone]> d]> σ,
     KeyError "name").
Proof.
  intros Hcrop Hd Hname. unfold load_dataset, build_dataset. rewrite Hname.
  f_equal. unfold enforce_no_roi_filter, setitem. rewrite Hcrop.
  apply map_eq. intros l. destruct (decide (l = roi_params a)) as [->|Hne].
  - by rewrite lookup_alter_eq, lookup_insert_eq, Hd.
  - by rewrite lookup_alter_ne, lookup_insert_ne.
Qed.

Lemma load_dataset_fails_after_write_witness :
  (load_dataset (arguments_of ∅ ∅) store0).1 !! 0
  = Some (<["slice_filter_roi" := PyNone]> roi0).
Proof.
  rewrite (load_dataset_fails_after_write (arguments_of ∅ ∅) store0 roi0);
    [| vm_compute; reflexivity | vm_compute; reflexivity
     | vm_compute; reflexivity].
  simpl. apply lookup_insert_eq.
Defined.

(** X12. The write persists: after a call without ['ROICrop'], a later call
    on the same [roi_params] builds its dataset on a dictionary that has
    [None] under ["slice_filter_roi"], also when the later call has
    ['ROICrop'] among its transforms. *)
Theorem load_dataset_write_persists (a1 a2 : arguments) (σ : store) (d : dict)
    (ds : dataset) :
  transforms_params a1 !! "ROICrop" = None →
  roi_params a2 = roi_params a1 →
  σ !! roi_params a1 = Some d →
  (load_dataset a2 (load_dataset a1 σ).1).2 = Ok ds →
  ∃ d', roi_at_init ds = Some d' ∧ d' !! "slice_filter_roi" = Some PyNone.
Proof.
  intros Hcrop Hroi Hd Hds. unfold load_dataset in Hds. simpl in Hds.
  apply build_dataset_view in Hds as [_ Hview]. rewrite Hview, Hroi.
  assert (H1 : enforce_no_roi_filter a1 σ !! roi_params a1
               = Some (<["slice_filter_roi" := PyNone]> d)).
  { unfold enforce_no_roi_filter. rewrite Hcrop. by apply lookup_setitem_eq. }
  unfold enforce_no_roi_filter at 1.
  destruct (transforms_params a2 !! "ROICrop").
  - eexists. split; [exact H1 | apply lookup_insert_eq].
  - rewrite Hroi. erewrite lookup_setitem_eq by exact H1.
    eexists. split; [done | apply lookup_insert_eq].
Qed.

Lemma load_dataset_write_persists_witness :
  ∃ ds d',
    (load_dataset
       (arguments_of (<["name" := PyStr "Unet"]> ∅) (<["ROICrop" := PyNone]> ∅))
       (load_dataset (arguments_of (<["name" := PyStr "Unet"]> ∅) ∅)
          store0).1).2 = Ok ds
    ∧ roi_at_init ds = Some d'
    ∧ d' !! "slice_filter_roi" = Some PyNone.
Proof.
  pose (a1 := arguments_of (<["name" := PyStr "Unet"]> ∅) ∅).
  pose (a2 := arguments_of (<["name" := PyStr "Unet"]> ∅)
                (<["ROICrop" := PyNone]> ∅)).
  destruct (build_dataset a2 (enforce_no_roi_filter a2
              (enforce_no_roi_filter a1 store0))) as [ds|k|k] eqn:Hds;
    [|vm_compute in Hds; discriminate..].
  destruct (load_dataset_write_persists a1 a2 store0 roi0 ds)
    as (d' & Hv & Hn);
    [vm_compute; reflexivity | reflexivity | vm_compute; reflexivity
     | exact Hds |].
  exists ds, d'. split; [exact Hds | split; [exact Hv | exact Hn]].
Defined.

End LoaderMore.

Module PrepareFacts.
Import Prepare.

(** X13. [get_midslice_average], for an index inside the volume: the slices
    averaged are those from [ind - k] to [ind + k - 1], with [k] the smallest
    of 3, [ind] and the number of slices from [ind] on. The window lies in
    the volume; it holds an even number of slices, six at most and never the
    seven of the docstring, and none when [ind] is 0 or the number of
    slices. *)
Theorem midslice_slices_window {A : Type} (arr : list A) (ind : Z) :
  (0 ≤ ind ≤ Z.of_nat (length arr))%Z →
  let n := Z.of_nat (length arr) in
  let k := Z.min 3 (Z.min ind (n - ind)) in
  midslice_slices arr ind
  = take (Z.to_nat (2 * k)) (drop (Z.to_nat (ind - k)) arr)
  ∧ Z.of_nat (length (midslice_slices arr ind)) = (2 * k)%Z
  ∧ (0 ≤ ind - k)%Z ∧ (ind + k ≤ n)%Z ∧ (0 ≤ k ≤ 3)%Z.
Proof.
  intros Hind n k.
  assert (Hk : numb_of_slice n ind = k).
  { unfold numb_of_slice, k.
    destruct (ind + 3 >? n)%Z eqn:E1.
    - apply Z.gtb_lt in E1.
      destruct (ind - (n - ind) <? 0)%Z eqn:E2;
        [apply Z.ltb_lt in E2 | apply Z.ltb_ge in E2]; lia.
    - rewrite Z.gtb_ltb in E1. apply Z.ltb_ge in E1.
      destruct (ind - 3 <? 0)%Z eqn:E2;
        [apply Z.ltb_lt in E2 | apply Z.ltb_ge in E2]; lia. }
  assert (Hb : (0 ≤ k ≤ 3 ∧ 0 ≤ ind - k ∧ ind + k ≤ n)%Z) by (unfold k; lia).
  assert (Heq : midslice_slices arr ind
                = take (Z.to_nat (2 * k)) (drop (Z.to_nat (ind - k)) arr)).
  { unfold midslice_slices, py_slice. fold n. rewrite Hk.
    unfold slice_bound.
    replace (ind - k <? 0)%Z with false by (symmetry; apply Z.ltb_ge; lia).
    replace (ind + k <? 0)%Z with false by (symmetry; apply Z.ltb_ge; lia).
    rewrite !Z.min_l by lia. f_equal. lia. }
  split_and!; [done | | lia | lia | lia | lia].
  rewrite Heq, length_take, length_drop. unfold n in *. lia.
Qed.

Lemma midslice_slices_window_witness :
  midslice_slices [10; 11; 12; 13; 14; 15; 16; 17; 18; 19]%Z 9
  = take (Z.to_nat (2 * 1)) (drop (Z.to_nat (9 - 1))
      [10; 11; 12; 13; 14; 15; 16; 17; 18; 19]%Z).
Proof.
  destruct (midslice_slices_window
              [10; 11; 12; 13; 14; 15; 16; 17; 18; 19]%Z 9) as [H _];
    [simpl; lia|].
  exact H.
Defined.

(** *** [mask2label] *)

Lemma insert_point_perm p l : insert_point p l ≡ₚ p :: l.
Proof.
  induction l as [|q l IH]; simpl; [done|].
  destruct (value_of p <=? value_of q)%Z; [done|].
  rewrite IH. apply Permutation_swap.
Qed.

Lemma sort_points_perm l : sort_points l ≡ₚ l.
Proof.
  induction l as [|p l IH]; simpl; [done|].
  rewrite insert_point_perm. by rewrite IH.
Qed.

Lemma insert_point_sorted p l :
  StronglySorted by_value l → StronglySorted by_value (insert_point p l).
Proof.
  induction 1 as [|q l Hl IH Hq]; simpl.
  - repeat constructor.
  - destruct (value_of p <=? value_of q)%Z eqn:E.
    + apply Z.leb_le in E. constructor; [by constructor|].
      constructor; [done|]. eapply Forall_impl; [exact Hq|].
      intros r Hr. unfold by_value in *. lia.
    + apply Z.leb_gt in E. constructor; [done|].
      rewrite insert_point_perm. constructor; [|done].
      unfold by_value. lia.
Qed.

Lemma sort_points_sorted l : StronglySorted by_value (sort_points l).
Proof.
  induction l as [|p l IH]; simpl; [constructor|].
  by apply insert_point_sorted.
Qed.

Lemma elem_of_voxels (arr : volume) x y z v :
  (x, y, z, v) ∈ voxels arr ↔
  ∃ plane row, arr !! x = Some plane ∧ plane !! y = Some row
               ∧ row !! z = Some v.
Proof.
  unfold voxels. rewrite list_elem_of_In, in_concat. split.
  - intros (l1 & H1 & Hin1).
    apply list_elem_of_In, elem_of_lookup_imap in H1 as (x' & plane & -> & Hx).
    apply in_concat in Hin1 as (l2 & H2 & Hin2).
    apply list_elem_of_In, elem_of_lookup_imap in H2 as (y' & row & -> & Hy).
    apply list_elem_of_In, elem_of_lookup_imap in Hin2 as (z' & v' & Heq & Hz).
    injection Heq as -> -> -> ->. by exists plane, row.
  - intros (plane & row & Hx & Hy & Hz). eexists. split.
    + apply list_elem_of_In. by apply (elem_of_lookup_imap_2 _ arr plane x).
    + apply in_concat. eexists. split.
      * apply list_elem_of_In. by apply (elem_of_lookup_imap_2 _ plane row y).
      * apply list_elem_of_In.
        by apply (elem_of_lookup_imap_2 (λ z v, (x, y, z, v)) row v z).
Qed.

(** X14. [mask2label] returns the points sorted by value; the points are the
    voxels of the volume that pass the test of the aim, each once. For
    ['full'] the test keeps every value that is not 0, not 1 and below 30,
    so that 2 and the negative values are kept and 30 is not; for ['c2'] it
    keeps the value 3 alone; any other aim gives the empty list. *)
Theorem mask2label_sorted_complete (arr : volume) (aim : string) :
  StronglySorted by_value (mask2label arr aim)
  ∧ mask2label arr aim ≡ₚ List.filter (kept aim) (nonzero arr)
  ∧ (∀ x y z v,
       (x, y, z, v) ∈ mask2label arr aim ↔
       (∃ plane row, arr !! x = Some plane ∧ plane !! y = Some row
                     ∧ row !! z = Some v)
       ∧ if String.eqb aim "full" then (v ≠ 0 ∧ v ≠ 1 ∧ v < 30)%Z
         else if String.eqb aim "c2" then v = 3%Z
         else False).
Proof.
  split_and!.
  - apply sort_points_sorted.
  - apply sort_points_perm.
  - intros x y z v. unfold mask2label. rewrite sort_points_perm.
    rewrite list_elem_of_In, filter_In, <- list_elem_of_In.
    unfold nonzero. rewrite list_elem_of_filter, elem_of_voxels.
    unfold kept, value_of. simpl.
    destruct (String.eqb aim "full").
    + rewrite andb_true_iff, negb_true_iff, Z.ltb_lt, Z.eqb_neq. tauto.
    + destruct (String.eqb aim "c2").
      * rewrite Z.eqb_eq. split; [tauto|]. intros [? ->]. split_and!; done.
      * split; [intros [_ ?]; done | tauto].
Qed.

(** *** [add_zero_padding] *)

Lemma fits_iff {A : Type} x_val y_val (img : array2 A) :
  fits x_val y_val img = true ↔
  (height img ≤ x_val ∨ height img = 1) ∧ (width img ≤ y_val ∨ width img = 1).
Proof.
  unfold fits. rewrite andb_true_iff, !orb_true_iff, !bool_decide_eq_true. lia.
Qed.

Lemma pixel_pad {A : Type} x_val y_val (f : nat → nat → A) r c :
  r < x_val → c < y_val →
  pixel (Array2 x_val y_val
           (map (λ r, map (λ c, f r c) (seq 0 y_val)) (seq 0 x_val))) r c
  = Some (f r c).
Proof.
  intros Hr Hc. unfold pixel. simpl.
  rewrite list_lookup_fmap, lookup_seq_lt by done. simpl.
  rewrite list_lookup_fmap, lookup_seq_lt by done. done.
Qed.

Lemma pixel_well_shaped {A : Type} (img : array2 A) r c :
  well_shaped img → r < height img → c < width img →
  is_Some (pixel img r c).
Proof.
  intros [Hh Hw] Hr Hc. unfold pixel.
  destruct (rows img !! r) as [row|] eqn:Hrow.
  - simpl. apply lookup_lt_is_Some.
    rewrite Forall_forall in Hw. rewrite (Hw row); [done|].
    by eapply list_elem_of_lookup_2.
  - apply lookup_ge_None in Hrow. lia.
Qed.

(** X15. [add_zero_padding] returns as many images as it is given, each of
    the shape asked for. An entry of the upper left corner is the entry of
    the image given, converted to [float64]; every other entry is the zero
    of [float64]. The function fails as soon as one image is larger than
    that shape along a dimension (a dimension of size 1 apart, which numpy
    broadcasts); one image alone is treated as a list of one. *)
Theorem add_zero_padding_spec {dtype float64 : Type} (zero : float64)
    (astype_float64 : dtype → float64) (imgs : list (array2 dtype))
    (x_val y_val : nat) :
  (is_Some (add_zero_padding dtype float64 zero astype_float64 (inr imgs)
              x_val y_val) ↔
   Forall (λ img, (height img ≤ x_val ∨ height img = 1)
                  ∧ (width img ≤ y_val ∨ width img = 1)) imgs)
  ∧ (∀ out,
       add_zero_padding dtype float64 zero astype_float64 (inr imgs)
         x_val y_val = Some out →
       length out = length imgs
       ∧ ∀ i img o, imgs !! i = Some img → out !! i = Some o →
           height o = x_val ∧ width o = y_val ∧ well_shaped o
           ∧ (well_shaped img →
              ∀ r c, r < x_val → c < y_val →
                r < height img → c < width img →
                ∃ v, pixel img r c = Some v
                     ∧ pixel o r c = Some (astype_float64 v))
           ∧ (∀ r c, r < x_val → c < y_val →
                ¬ (r < height img ∧ c < width img) →
                pixel o r c = Some zero))
  ∧ (∀ img,
       add_zero_padding dtype float64 zero astype_float64 (inl img)
         x_val y_val
       = add_zero_padding dtype float64 zero astype_float64 (inr [img])
           x_val y_val).
Proof.
  split_and!.
  - unfold add_zero_padding. rewrite mapM_is_Some.
    apply Forall_iff. intros img. unfold compose, pad_image.
    rewrite <- fits_iff.
    destruct (fits x_val y_val img); split; try done;
      try (intros _; by eexists); by intros [? ?].
  - intros out Hout. unfold add_zero_padding in Hout.
    split; [symmetry; by eapply length_mapM|].
    apply mapM_Some_1 in Hout. intros i img o Hi Ho.
    eapply Forall2_lookup_lr in Hout; [|exact Hi|exact Ho].
    unfold pad_image in Hout. destruct (fits x_val y_val img); [|done].
    injection Hout as <-. split_and!; [done | done | | |].
    + split; simpl; [by rewrite length_map, length_seq|].
      apply Forall_fmap, Forall_forall. intros r _. simpl.
      by rewrite length_map, length_seq.
    + intros Hws r c Hr Hc Hrh Hcw.
      destruct (pixel_well_shaped img r c Hws Hrh Hcw) as [v Hv].
      exists v. split; [done|].
      rewrite (pixel_pad x_val y_val
        (λ r c, if bool_decide (r < height img) && bool_decide (c < width img)
                then match pixel img r c with
                     | Some v => astype_float64 v
                     | None => zero
                     end
                else zero)) by done.
      rewrite Hv. by rewrite !bool_decide_eq_true_2.
    + intros r c Hr Hc Hout.
      rewrite (pixel_pad x_val y_val
        (λ r c, if bool_decide (r < height img) && bool_decide (c < width img)
                then match pixel img r c with
                     | Some v => astype_float64 v
                     | None => zero
                     end
                else zero)) by done.
      repeat case_bool_decide; simpl; first [done | exfalso; lia].
  - done.
Qed.

Lemma add_zero_padding_spec_witness :
  ∃ out o,
    add_zero_padding Z Z 0%Z float64_of_int
      (inr [Array2 2 2 [[9007199254740993; 2]; [3; 4]]%Z]) 3 3 = Some out
    ∧ length out = 1
    ∧ out !! 0 = Some o
    ∧ pixel o 0 0 = Some 9007199254740992%Z
    ∧ pixel o 2 2 = Some 0%Z.
Proof.
  destruct (add_zero_padding_spec 0%Z float64_of_int
              [Array2 2 2 [[9007199254740993; 2]; [3; 4]]%Z] 3 3)
    as (Hsome & Hout & _).
  destruct (proj2 Hsome) as [out Ho].
  { repeat constructor; simpl; lia. }
  destruct (Hout out Ho) as [Hl Hpix].
  destruct out as [|o [|? ?]]; [discriminate Hl | | discriminate Hl].
  destruct (Hpix 0 _ o eq_refl eq_refl) as (_ & _ & _ & Hin & Hzero).
  exists [o], o. split_and!; [exact Ho | done | done | |].
  - destruct (Hin ltac:(by repeat constructor) 0 0) as (v & Hv & Hov);
      [lia | lia | simpl; lia | simpl; lia |].
    injection Hv as <-. exact Hov.
  - apply Hzero; [lia | lia | simpl; lia].
Defined.

End PrepareFacts.

Module AutomateFacts.
Import Automate.

(** *** [get_base_keys], [keys_are_unique] *)

Lemma get_base_keys_from (acc l : list string) :
  NoDup acc →
  let r := fold_left
             (fun base_keys base_key =>
                if bool_decide (base_key ∈ base_keys) then base_keys
                else base_keys ++ [base_key]) l acc in
  NoDup r
  ∧ (∀ k, k ∈ r ↔ k ∈ acc ∨ k ∈ l)
  ∧ ∃ new, r = acc ++ new ∧ new `sublist_of` l.
Proof.
  revert acc. induction l as [|x l IH]; intros acc Hacc; simpl.
  - split_and!; [done | intros k; rewrite elem_of_nil; tauto |].
    exists []. by rewrite app_nil_r.
  - case_bool_decide as Hx.
    + destruct (IH acc Hacc) as (Hnd & Hin & new & Hr & Hsub).
      split_and!; [done | |].
      { intros k. rewrite Hin, elem_of_cons. split; [tauto|].
        intros [? | [-> | ?]]; tauto. }
      exists new. split; [done | by apply sublist_cons].
    + destruct (IH (acc ++ [x])) as (Hnd & Hin & new & Hr & Hsub).
      { apply NoDup_app. split_and!; [done | | apply NoDup_singleton].
        intros y Hy ->%list_elem_of_singleton. done. }
      split_and!; [done | |].
      { intros k. rewrite Hin, elem_of_app, !elem_of_cons, elem_of_nil. tauto. }
      exists (x :: new). split; [by rewrite Hr, <- app_assoc|].
      by apply sublist_skip.
Qed.

Lemma sublist_same_length {A : Type} (l1 l2 : list A) :
  l1 `sublist_of` l2 → length l2 ≤ length l1 → l1 = l2.
Proof.
  induction 1 as [|x l1 l2 Hs IH|x l1 l2 Hs IH]; simpl; intros Hl.
  - done.
  - f_equal. apply IH. lia.
  - apply sublist_length in Hs. lia.
Qed.

Lemma get_base_keys_cons (x : string) (l : list string) :
  get_base_keys (x :: l)
  = fold_left
      (fun base_keys base_key =>
         if bool_decide (base_key ∈ base_keys) then base_keys
         else base_keys ++ [base_key]) l [x].
Proof. reflexivity. Qed.

Lemma get_base_keys_acc (l acc : list string) :
  fold_left
    (fun base_keys base_key =>
       if bool_decide (base_key ∈ base_keys) then base_keys
       else base_keys ++ [base_key]) l acc
  = acc ++ filter (λ x, x ∉ acc) (get_base_keys l).
Proof.
  revert acc. induction l as [|x l IH]; intros acc; [by rewrite app_nil_r|].
  rewrite get_base_keys_cons, (IH [x]). cbn [fold_left app].
  case_bool_decide as Hx; rewrite IH.
  - rewrite filter_cons_False, list_filter_filter by tauto.
    f_equal. apply list_filter_iff. intros y. split; [|tauto].
    intros Hy. split; [done|]. intros ->%list_elem_of_singleton. done.
  - rewrite <- app_assoc. simpl.
    rewrite filter_cons_True, list_filter_filter by done.
    do 2 f_equal. apply list_filter_iff. intros y.
    rewrite elem_of_app, !list_elem_of_singleton. tauto.
Qed.

(** X16. [get_base_keys] returns every base key once, in the order of the
    first appearances: the first key of a list comes first, and is followed
    by what the rest of the list gives, without that key. The list returned
    has no duplicate, holds the keys of the options and no other, and is a
    list without duplicates as it is. *)
Theorem get_base_keys_spec (keys : list string) :
  NoDup (get_base_keys keys)
  ∧ (∀ k, k ∈ get_base_keys keys ↔ k ∈ keys)
  ∧ get_base_keys keys `sublist_of` keys
  ∧ (NoDup keys → get_base_keys keys = keys)
  ∧ get_base_keys [] = []
  ∧ (∀ k, get_base_keys (k :: keys)
          = k :: filter (λ x, x ≠ k) (get_base_keys keys)).
Proof.
  destruct (get_base_keys_from [] keys (NoDup_nil_2))
    as (Hnd & Hin & new & Hr & Hsub).
  split_and!.
  - done.
  - intros k. unfold get_base_keys. rewrite Hin, elem_of_nil. tauto.
  - unfold get_base_keys. simpl in Hr. by rewrite Hr.
  - unfold get_base_keys. simpl in Hr. rewrite Hr in *.
    intros Hk. apply sublist_same_length; [done|].
    apply submseteq_length, NoDup_submseteq; [done|]. intros k Hin'.
    apply Hin. by right.
  - done.
  - intros k. rewrite get_base_keys_cons, get_base_keys_acc. simpl. f_equal.
    apply list_filter_iff. intros y. by rewrite list_elem_of_singleton.
Qed.

Lemma remove_dups_length_le (l : list string) :
  length (remove_dups l) ≤ length l.
Proof.
  apply submseteq_length, NoDup_submseteq; [apply NoDup_remove_dups|].
  intros x. by rewrite elem_of_remove_dups.
Qed.

Lemma keys_are_unique_NoDup (keys : list string) :
  keys_are_unique keys = true ↔ NoDup keys.
Proof.
  unfold keys_are_unique. rewrite Nat.eqb_eq.
  induction keys as [|k keys IH]; simpl.
  - split; [constructor | done].
  - pose proof (remove_dups_length_le keys). rewrite NoDup_cons.
    case_decide as Hk; simpl.
    + split; [lia | tauto].
    + split; [intros [= ?]; tauto | intros [_ ?]; f_equal; tauto].
Qed.

(** X17. [keys_are_unique] holds exactly for the combinations in which no two
    options have the same base key. *)
Theorem keys_are_unique_iff (keys : list string) :
  keys_are_unique keys = true ↔ NoDup keys.
Proof. apply keys_are_unique_NoDup. Qed.

(** *** [train_worker], [test_worker] *)

Lemma py_nth_spec {A : Type} (l : list A) (i : Z) :
  py_nth l i
  = match (if (i <? 0)%Z
           then (if (0 <=? i + Z.of_nat (length l))%Z
                 then l !! Z.to_nat (i + Z.of_nat (length l)) else None)
           else l !! Z.to_nat i) with
    | Some x => Done x
    | None => Raise IndexError
    end.
Proof.
  unfold py_nth. destruct (i <? 0)%Z eqn:Hi.
  - apply Z.ltb_lt in Hi. destruct (0 <=? i + _)%Z eqn:H0; simpl; [|done].
    replace (i + Z.of_nat (length l) <? Z.of_nat (length l))%Z with true
      by (symmetry; apply Z.ltb_lt; lia).
    by destruct (l !! _).
  - apply Z.ltb_ge in Hi.
    replace (0 <=? i)%Z with true by (symmetry; apply Z.leb_le; lia). simpl.
    destruct (i <? Z.of_nat (length l))%Z eqn:H1; [by destruct (l !! _)|].
    apply Z.ltb_ge in H1. rewrite lookup_ge_None_2; [done | lia].
Qed.

Lemma digit_of_range c d : digit_of c = Some d → (0 ≤ d ≤ 9)%Z.
Proof.
  unfold digit_of. destruct (_ && _) eqn:E; [|done].
  apply andb_true_iff in E as [E1 E2].
  apply Nat.leb_le in E1, E2. intros [= <-]. lia.
Qed.

(** X18. The GPU of a worker is chosen by the last character of the name of
    its process alone: a name that ends with the digit [d] from 1 to 9
    takes the entry [d - 1] of [gpu_ids], and fails with an [IndexError]
    when the list is shorter; a name that ends with 0, as the one of the
    tenth process does, takes the last entry. The list that replaces
    [gpu_ids] has one element, taken from the list. *)
Theorem assign_gpu_spec (process_name : string) (gpu_ids : list Z) (c : ascii)
    (d : Z) :
  last_char process_name = Some c →
  digit_of c = Some d →
  assign_gpu process_name gpu_ids
  = match (if (d =? 0)%Z then last gpu_ids
           else gpu_ids !! Z.to_nat (d - 1)) with
    | Some gpu => Done [gpu]
    | None => Raise IndexError
    end
  ∧ (∀ r, assign_gpu process_name gpu_ids = Done r →
       ∃ gpu, r = [gpu] ∧ gpu ∈ gpu_ids).
Proof.
  intros Hc Hd. pose proof (digit_of_range c d Hd) as Hr.
  assert (Heq : assign_gpu process_name gpu_ids
    = match (if (d =? 0)%Z then last gpu_ids
             else gpu_ids !! Z.to_nat (d - 1)) with
      | Some gpu => Done [gpu]
      | None => Raise IndexError
      end).
  { unfold assign_gpu. rewrite Hc, Hd, py_nth_spec.
    destruct (d =? 0)%Z eqn:E.
    - apply Z.eqb_eq in E. subst d. simpl.
      destruct gpu_ids as [|g l] using rev_ind; [done|].
      rewrite length_app, last_snoc. simpl.
      replace (0 - 1 + Z.of_nat (length l + 1))%Z with (Z.of_nat (length l))
        by lia.
      replace (0 <=? Z.of_nat (length l))%Z with true
        by (symmetry; apply Z.leb_le; lia).
      rewrite Nat2Z.id, list_lookup_middle by done. done.
    - apply Z.eqb_neq in E.
      replace (d - 1 <? 0)%Z with false by (symmetry; apply Z.ltb_ge; lia).
      by destruct (gpu_ids !! _). }
  split; [done|]. rewrite Heq. intros r.
  destruct (d =? 0)%Z.
  - destruct (last gpu_ids) as [g|] eqn:Hl; [|done]. intros [= <-].
    exists g. split; [done|]. by apply last_Some_elem_of.
  - destruct (gpu_ids !! _) as [g|] eqn:Hl; [|done]. intros [= <-].
    exists g. split; [done|]. by eapply list_elem_of_lookup_2.
Qed.

Lemma assign_gpu_spec_witness :
  assign_gpu "SpawnPoolWorker-10" [4; 5; 6; 7]%Z = Done [7%Z].
Proof.
  destruct (assign_gpu_spec "SpawnPoolWorker-10" [4; 5; 6; 7]%Z "0"%char 0)
    as [H _]; [reflexivity | reflexivity |].
  exact H.
Defined.

(** *** Names of the options *)

Lemma replace_slash_no_slash s : Names.contains "/" (replace_slash s) = false.
Proof.
  induction s as [|c s IH]; [done|]. simpl. rewrite IH.
  destruct (Ascii.eqb c "/") eqn:E; [done|]. by rewrite E.
Qed.

(** X19. The printed value of an option has its slashes replaced in the
    name of the option: the name holds a slash only if the base key does, so
    that appending it to [log_directory] adds no level to the path. *)
Theorem option_name_no_slash (py_str : json → string) (key : string)
    (opt value : json) :
  Names.contains "/" (name (new_option py_str key opt value))
  = Names.contains "/" key.
Proof.
  unfold new_option. simpl.
  rewrite !NamesFacts.contains_append, replace_slash_no_slash. simpl.
  by rewrite !orb_false_r.
Qed.

(** *** Dictionaries *)

Lemma dict_get_set_eq k v items : dict_get k (dict_set k v items) = Some v.
Proof.
  induction items as [|[k' v'] items IH]; simpl.
  - by rewrite String.eqb_refl.
  - destruct (String.eqb k' k) eqn:E; simpl.
    + by rewrite String.eqb_refl.
    + by rewrite E.
Qed.

Lemma dict_get_set_ne k k' v items :
  k ≠ k' → dict_get k' (dict_set k v items) = dict_get k' items.
Proof.
  intros Hne. induction items as [|[k0 v0] items IH]; simpl.
  - by apply String.eqb_neq in Hne as ->.
  - destruct (String.eqb k0 k) eqn:E; simpl.
    + apply String.eqb_eq in E. subst k0.
      by apply String.eqb_neq in Hne as ->.
    + by rewrite IH.
Qed.

Lemma dict_get_set_is_Some k k' v items :
  is_Some (dict_get k' items) → is_Some (dict_get k' (dict_set k v items)).
Proof.
  intros H. destruct (decide (k = k')) as [->|Hne].
  - rewrite dict_get_set_eq. by eexists.
  - by rewrite dict_get_set_ne.
Qed.

(** *** [update_dict] *)

(** One turn of the loop of [update_dict]. *)
Lemma update_dict_unfold uitems d bk :
  update_dict (JDict uitems) d bk
  = for_items
      (fun d k v =>
         if String.eqb k bk then py_setitem d k v
         else
           match v with
           | JDict _ =>
               match d with
               | JDict ditems =>
                   bind
                     (update_dict v (default (JDict []) (dict_get k ditems)) bk)
                     (py_setitem d k)
               | _ => Raise AttributeError
               end
           | _ => py_setitem d k v
           end)
      uitems d.
Proof. reflexivity. Qed.

Lemma py_setitem_Done d k v d1 :
  py_setitem d k v = Done d1 →
  ∃ ditems, d = JDict ditems ∧ d1 = JDict (dict_set k v ditems).
Proof. destruct d; simpl; try done. intros [= <-]. by eexists. Qed.

Lemma update_step_Done bk d k v d1 :
  (if String.eqb k bk then py_setitem d k v
   else
     match v with
     | JDict _ =>
         match d with
         | JDict ditems =>
             bind (update_dict v (default (JDict []) (dict_get k ditems)) bk)
               (py_setitem d k)
         | _ => Raise AttributeError
         end
     | _ => py_setitem d k v
     end) = Done d1 →
  ∃ ditems x, d = JDict ditems ∧ d1 = JDict (dict_set k x ditems).
Proof.
  destruct (String.eqb k bk).
  - intros (ditems & -> & ->)%py_setitem_Done. by eexists _, _.
  - destruct v; try (intros (ditems & -> & ->)%py_setitem_Done; by eexists _, _).
    destruct d; try done.
    destruct (update_dict _ _ _) as [r|]; [|done]. simpl.
    intros [= <-]. by eexists _, _.
Qed.

Lemma update_dict_Done (uitems : list (string * json)) (d : json)
    (base_key : string) (r : json) :
  update_dict (JDict uitems) d base_key = Done r →
  (uitems = [] ∧ r = d)
  ∨ ∃ ditems ritems,
      d = JDict ditems ∧ r = JDict ritems
      ∧ (∀ k, k ∉ map fst uitems → dict_get k ritems = dict_get k ditems)
      ∧ (∀ k, is_Some (dict_get k ditems) → is_Some (dict_get k ritems))
      ∧ (∀ k, k ∈ map fst uitems → is_Some (dict_get k ritems)).
Proof.
  rewrite update_dict_unfold. revert d.
  induction uitems as [|[k v] uitems IH]; intros d; simpl.
  - intros [= <-]. by left.
  - intros H. right.
    match type of H with bind ?step _ = _ =>
      destruct step as [d1|] eqn:Hstep; [|done] end.
    apply update_step_Done in Hstep as (ditems & x & -> & ->).
    simpl in H. apply IH in H as [[-> ->] | (d1 & ritems & Hd1 & -> & Hf & Hk & Hu)].
    + exists ditems, (dict_set k x ditems). split_and!; [done | done | | |].
      * intros k' Hk'. apply dict_get_set_ne. intros ->. apply Hk'. by left.
      * intros k'. apply dict_get_set_is_Some.
      * intros k' Hk'. apply list_elem_of_singleton in Hk' as ->.
        rewrite dict_get_set_eq. by eexists.
    + injection Hd1 as <-.
      exists ditems, ritems. split_and!; [done | done | | |].
      * intros k' Hk'. rewrite Hf by (intros ?; apply Hk'; by right).
        apply dict_get_set_ne. intros ->. apply Hk'. by left.
      * intros k' Hk'. by apply Hk, dict_get_set_is_Some.
      * intros k' [-> | Hk']%elem_of_cons; [|by apply Hu].
        apply Hk. rewrite dict_get_set_eq. by eexists.
Qed.

(** X20. [update_dict] touches the keys of the update only: when it returns,
    on an update that is not empty, the configuration was a dictionary and
    the result is a dictionary in which every key of the update is present,
    every key of the configuration is still present, and every key the
    update does not name has the value it had. An empty update returns the
    configuration as it is. *)
Theorem update_dict_frame (uitems : list (string * json)) (d : json)
    (base_key : string) (r : json) :
  update_dict (JDict uitems) d base_key = Done r →
  (uitems = [] ∧ r = d)
  ∨ ∃ ditems ritems,
      d = JDict ditems ∧ r = JDict ritems
      ∧ (∀ k, k ∉ map fst uitems → dict_get k ritems = dict_get k ditems)
      ∧ (∀ k, is_Some (dict_get k ditems) → is_Some (dict_get k ritems))
      ∧ (∀ k, k ∈ map fst uitems → is_Some (dict_get k ritems)).
Proof. apply update_dict_Done. Qed.

Lemma update_dict_frame_witness :
  ∃ r, update_dict (JDict [("default_model", JDict [("depth", JInt 2)])])
         (JDict [("default_model", JDict [("depth", JInt 3)]);
                 ("log_directory", JStr "./tmp/")]) "depth" = Done (JDict r)
       ∧ dict_get "log_directory" r = Some (JStr "./tmp/").
Proof.
  destruct (update_dict_frame [("default_model", JDict [("depth", JInt 2)])]
              (JDict [("default_model", JDict [("depth", JInt 3)]);
                      ("log_directory", JStr "./tmp/")]) "depth"
              (JDict [("default_model", JDict [("depth", JInt 2)]);
                      ("log_directory", JStr "./tmp/")]) eq_refl)
    as [[H _] | (ditems & ritems & Hd & Hr & Hf & _)]; [discriminate H|].
  injection Hd as <-. injection Hr as <-.
  eexists. split; [reflexivity|]. reflexivity.
Defined.

(** *** [get_param_list] *)

Lemma json_nested_ind (P : json → Prop) :
  P JNull → (∀ b, P (JBool b)) → (∀ z, P (JInt z)) → (∀ q, P (JFloat q)) →
  (∀ s, P (JStr s)) →
  (∀ l, Forall P l → P (JList l)) →
  (∀ items, Forall (fun kv => P kv.2) items → P (JDict items)) →
  ∀ j, P j.
Proof.
  intros HN HB HZ HQ HS HL HD. fix IH 1.
  intros [ |b|z|q|s|l|items]; [done..| |].
  - apply HL. induction l as [|x l IHl]; constructor; [apply IH | exact IHl].
  - apply HD.
    induction items as [|[k v] items IHl]; constructor;
      [apply IH | exact IHl].
Qed.

Lemma wrap_option_nil d : wrap_option [] d = d.
Proof. done. Qed.

Lemma wrap_option_cons top path d :
  wrap_option (top :: path) d = JDict [(top, d)].
Proof.
  unfold wrap_option. simpl. by rewrite fold_left_app.
Qed.

Section OptionFacts.
Variable py_str : json → string.

Abbreviation found sk j o :=
  (∃ path key elements element,
     has_path (path ++ [key]) j (JList elements)
     ∧ element ∈ elements
     ∧ o = new_option py_str key
             (wrap_option (sk ++ path) (JDict [(key, element)])) element).

Lemma has_path_snoc_not_dict path key j v :
  (∀ items, j ≠ JDict items) → ¬ has_path (path ++ [key]) j v.
Proof.
  intros Hj. destruct path; simpl; intros (items & sub & -> & _); by eapply Hj.
Qed.

Lemma found_nil sk o : ¬ found sk (JDict []) o.
Proof.
  intros (path & key & els & el & Hp & _).
  destruct path; simpl in Hp;
    destruct Hp as (items & sub & [= <-] & []%elem_of_nil & _).
Qed.

Lemma found_cons sk k v items o :
  found sk (JDict ((k, v) :: items)) o
  ↔ (∃ elements element,
       v = JList elements ∧ element ∈ elements
       ∧ o = new_option py_str k
               (wrap_option sk (JDict [(k, element)])) element)
    ∨ found (sk ++ [k]) v o
    ∨ found sk (JDict items) o.
Proof.
  split.
  - intros (path & key & els & el & Hp & Hel & ->).
    destruct path as [|p path]; simpl in Hp;
      destruct Hp as (items0 & sub & [= <-] & Hin & Hp);
      apply elem_of_cons in Hin as [[= -> ->] | Hin].
    + left. exists els, el. by rewrite app_nil_r.
    + right. right. exists [], key, els, el. split_and!; [|done..].
      simpl. by eexists _, _.
    + right. left. exists path, key, els, el. split_and!; [done..|].
      by rewrite <- app_assoc.
    + right. right. exists (p :: path), key, els, el. split_and!; [|done..].
      simpl. by eexists _, _.
  - intros [(els & el & -> & Hel & ->)
           | [(path & key & els & el & Hp & Hel & ->)
             | (path & key & els & el & Hp & Hel & ->)]].
    + exists [], k, els, el. rewrite app_nil_r. split_and!; [|done..].
      simpl. eexists _, _. split_and!; [done | by left | done].
    + exists (k :: path), key, els, el. split_and!; [|done|].
      * simpl. eexists _, _. split_and!; [done | by left | done].
      * by rewrite <- app_assoc.
    + exists path, key, els, el. split_and!; [|done..].
      destruct path as [|p path]; simpl in *;
        destruct Hp as (items0 & sub & [= <-] & Hin & Hp);
        eexists _, _; (split_and!; [done | by right | done]).
Qed.

Lemma get_param_list_found (j : json) :
  ∀ pl sk pl',
    get_param_list py_str j pl sk = Done pl' →
    ∃ new, pl' = pl ++ new ∧ ∀ o, o ∈ new ↔ found sk j o.
Proof.
  induction j as [ | | | | | |items IH] using json_nested_ind;
    intros pl sk pl'; try done.
  change (get_param_list py_str (JDict items) pl sk)
    with (for_items
            (fun param_list key value =>
               match value with
               | JList elements =>
                   Done
                     (param_list
                      ++ map
                           (fun element =>
                              new_option py_str key
                                (wrap_option sk (JDict [(key, element)]))
                                element)
                           elements)
               | _ => get_param_list py_str value param_list (sk ++ [key])
               end) items pl).
  revert pl. induction IH as [|[k v] items Hv _ IHitems]; intros pl; simpl.
  - intros [= <-]. exists []. split; [by rewrite app_nil_r|].
    intros o. split; [by intros []%elem_of_nil | by intros []%found_nil].
  - intros H.
    assert (Hstep : ∀ pl1,
      (match v with
       | JList elements =>
           Done (pl ++ map (fun element =>
                   new_option py_str k
                     (wrap_option sk (JDict [(k, element)])) element)
                   elements)
       | _ => get_param_list py_str v pl (sk ++ [k])
       end) = Done pl1 →
      ∃ new, pl1 = pl ++ new
        ∧ ∀ o, o ∈ new ↔
            (∃ elements element,
               v = JList elements ∧ element ∈ elements
               ∧ o = new_option py_str k
                       (wrap_option sk (JDict [(k, element)])) element)
            ∨ found (sk ++ [k]) v o).
    { intros pl1 H1. destruct v as [ | | | | |els|sub]; try done.
      - injection H1 as <-. eexists. split; [done|]. intros o.
        rewrite list_elem_of_fmap. split.
        + intros (el & -> & Hel). left. by exists els, el.
        + intros [(els' & el & [= <-] & Hel & ->)
                 | (path & key & els' & el & Hp & _)].
          * by exists el.
          * by apply has_path_snoc_not_dict in Hp.
      - simpl in Hv. apply Hv in H1 as (new & -> & Hnew).
        exists new. split; [done|]. intros o. rewrite Hnew. split; [by right|].
        intros [(els' & el & [=] & _) | ?]. done. }
    match type of H with bind ?step _ = _ =>
      destruct step as [pl1|] eqn:E; [|done] end.
    destruct (Hstep pl1 eq_refl) as (new1 & -> & Hnew1). simpl in H.
    apply IHitems in H as (new2 & -> & Hnew2).
    exists (new1 ++ new2). split; [by rewrite app_assoc|].
    intros o. rewrite elem_of_app, Hnew1, Hnew2, found_cons. tauto.
Qed.

(** X21. The options [get_param_list] reads from the dictionary of the
    hyperparameters are those of the elements of the lists found in it, each
    under its key [key] at the end of a path of keys, and no other. The
    option of an element found at the top of the dictionary is
    [{key: element}]; the option of an element found further down is
    [{top: {key: element}}] for the first key [top] of its path, whatever the
    depth of the list: the keys between [top] and [key] are not in the
    option. *)
Theorem get_param_list_options (my_dict : json)
    (param_list : list HyperparameterOption) :
  get_param_list py_str my_dict [] [] = Done param_list →
  ∀ o, o ∈ param_list ↔
    ∃ path key elements element,
      has_path (path ++ [key]) my_dict (JList elements)
      ∧ element ∈ elements
      ∧ o = new_option py_str key
              (match path with
               | [] => JDict [(key, element)]
               | top :: _ => JDict [(top, JDict [(key, element)])]
               end) element.
Proof.
  intros (new & -> & Hnew)%get_param_list_found o. simpl. rewrite Hnew.
  split; intros (path & key & els & el & Hp & Hel & ->);
    exists path, key, els, el; (split_and!; [done..|]);
    destruct path; simpl; by rewrite ?wrap_option_nil, ?wrap_option_cons.
Qed.

End OptionFacts.

Lemma get_param_list_options_witness :
  new_option (fun _ => "") "initial_lr"
    (JDict [("training_parameters", JDict [("initial_lr", JInt 1)])])
    (JInt 1)
  ∈ [new_option (fun _ => "") "initial_lr"
       (JDict [("training_parameters", JDict [("initial_lr", JInt 1)])])
       (JInt 1)].
Proof.
  apply (proj2
           (get_param_list_options (fun _ => "")
              (JDict [("training_parameters",
                       JDict [("scheduler",
                               JDict [("initial_lr", JList [JInt 1])])])])
              _ eq_refl _)).
  exists ["training_parameters"; "scheduler"], "initial_lr", [JInt 1], (JInt 1).
  split_and!; [|by left|reflexivity].
  simpl. do 3 (eexists _, _; split_and!; [reflexivity | by left |]).
  reflexivity.
Defined.

(** X22. Applying the option [{top: {key: value}}] to a configuration that
    has a dictionary under [top] writes [value] under [key] of that
    dictionary and nothing else: the other keys of the category and the
    other keys of the configuration keep their values. *)
Theorem update_dict_option (top key : string) (value : json)
    (config sub : list (string * json)) :
  top ≠ key →
  dict_get top config = Some (JDict sub) →
  ∃ r sub',
    update_dict (JDict [(top, JDict [(key, value)])]) (JDict config) key
    = Done (JDict r)
    ∧ dict_get top r = Some (JDict sub')
    ∧ dict_get key sub' = Some value
    ∧ (∀ k, k ≠ key → dict_get k sub' = dict_get k sub)
    ∧ (∀ k, k ≠ top → dict_get k r = dict_get k config).
Proof.
  intros Hne Hsub.
  exists (dict_set top (JDict (dict_set key value sub)) config),
    (dict_set key value sub).
  split_and!.
  - simpl. apply String.eqb_neq in Hne as ->. rewrite Hsub. simpl.
    by rewrite String.eqb_refl.
  - apply dict_get_set_eq.
  - apply dict_get_set_eq.
  - intros k Hk. by apply dict_get_set_ne.
  - intros k Hk. by apply dict_get_set_ne.
Qed.

Lemma update_dict_option_witness :
  ∃ r sub',
    update_dict (JDict [("default_model", JDict [("depth", JInt 2)])])
      (JDict [("default_model",
               JDict [("name", JStr "Unet"); ("depth", JInt 3)]);
              ("log_directory", JStr "./tmp/")]) "depth"
    = Done (JDict r)
    ∧ dict_get "default_model" r = Some (JDict sub')
    ∧ dict_get "depth" sub' = Some (JInt 2)
    ∧ (∀ k, k ≠ "depth" →
         dict_get k sub'
         = dict_get k [("name", JStr "Unet"); ("depth", JInt 3)])
    ∧ (∀ k, k ≠ "default_model" →
         dict_get k r
         = dict_get k
             [("default_model",
               JDict [("name", JStr "Unet"); ("depth", JInt 3)]);
              ("log_directory", JStr "./tmp/")]).
Proof.
  apply (update_dict_option "default_model" "depth" (JInt 2)
           [("default_model",
             JDict [("name", JStr "Unet"); ("depth", JInt 3)]);
            ("log_directory", JStr "./tmp/")]
           [("name", JStr "Unet"); ("depth", JInt 3)]).
  - discriminate.
  - reflexivity.
Defined.

(** *** [make_config_list] *)

Lemma collect_Done {A B : Type} (f : A → outcome B) (l : list A)
    (ys : list B) :
  collect f l = Done ys ↔ Forall2 (fun x y => f x = Done y) l ys.
Proof.
  revert ys. induction l as [|x l IH]; intros ys; simpl.
  - split; [intros [= <-]; constructor | by intros ->%Forall2_nil_inv_l].
  - destruct (f x) as [y|] eqn:Hx; simpl.
    + destruct (collect f l) as [ys'|]; simpl.
      * split.
        -- intros [= <-]. constructor; [done | by apply IH].
        -- intros (y' & ys'' & Hy & Hys & ->)%Forall2_cons_inv_l.
           apply IH in Hys. congruence.
      * split; [done|].
        intros (y' & ys'' & Hy & Hys & ->)%Forall2_cons_inv_l.
        by apply IH in Hys.
    + split; [done|].
      intros (y' & ys'' & Hy & Hys & ->)%Forall2_cons_inv_l. congruence.
Qed.

(** X23. Without [all_combin] and [multi_params], [make_config_list] gives
    one configuration per option, in the order of the options. The
    configuration of an option has the directory of the initial configuration
    followed by the name of the option under [log_directory], and, under
    every other key that the option does not name, what the initial
    configuration has. *)
Theorem make_config_list_default (param_list : list HyperparameterOption)
    (initial_config : json) (config_list : list json) :
  make_config_list param_list initial_config false false = Done config_list →
  length config_list = length param_list
  ∧ ∀ i o c,
      param_list !! i = Some o → config_list !! i = Some c →
      ∃ base uitems,
        py_getitem initial_config "log_directory" = Done (JStr base)
        ∧ option_ o = JDict uitems
        ∧ py_getitem c "log_directory" = Done (JStr (String.append base (name o)))
        ∧ ∀ k, k ≠ "log_directory" → k ∉ map fst uitems →
            py_getitem c k = py_getitem initial_config k.
Proof.
  unfold make_config_list. intros H%collect_Done.
  split; [symmetry; by eapply Forall2_length|].
  intros i o c Ho Hc.
  pose proof (Forall2_lookup_lr _ _ _ _ _ _ H Ho Hc) as Hoc. simpl in Hoc.
  unfold config_of_option in Hoc.
  destruct (update_dict _ _ _) as [c1|] eqn:Hu; [|done]. simpl in Hoc.
  destruct (py_getitem initial_config _) as [ld|] eqn:Hld; [|done].
  simpl in Hoc. destruct ld as [ | | | |base| | ]; try done. simpl in Hoc.
  destruct initial_config as [ | | | | | |ditems]; try done.
  destruct (option_ o) as [ | | | | | |uitems] eqn:Hopt; try done.
  exists base, uitems. split_and!; [done | done | |].
  - apply py_setitem_Done in Hoc as (ritems & -> & ->). simpl.
    by rewrite dict_get_set_eq.
  - intros k Hk Hku.
    apply py_setitem_Done in Hoc as (ritems & -> & ->). simpl.
    rewrite dict_get_set_ne by done.
    apply update_dict_Done in Hu
      as [[_ [= ->]] | (d1 & r1 & [= <-] & [= <-] & Hf & _)]; [done|].
    by rewrite Hf.
Qed.

Lemma make_config_list_default_witness :
  length
    [JDict [("depth", JInt 2); ("log_directory", JStr "./tmp/-depth=")]]
  = length [new_option (fun _ => "") "depth" (JDict [("depth", JInt 2)])
              (JInt 2)]
  ∧ ∀ i o c,
      [new_option (fun _ => "") "depth" (JDict [("depth", JInt 2)]) (JInt 2)]
        !! i = Some o →
      [JDict [("depth", JInt 2); ("log_directory", JStr "./tmp/-depth=")]]
        !! i = Some c →
      ∃ base uitems,
        py_getitem (JDict [("depth", JInt 3); ("log_directory", JStr "./tmp/")])
          "log_directory" = Done (JStr base)
        ∧ option_ o = JDict uitems
        ∧ py_getitem c "log_directory" = Done (JStr (String.append base (name o)))
        ∧ ∀ k, k ≠ "log_directory" → k ∉ map fst uitems →
            py_getitem c k
            = py_getitem
                (JDict [("depth", JInt 3); ("log_directory", JStr "./tmp/")])
                k.
Proof.
  apply (make_config_list_default
           [new_option (fun _ => "") "depth" (JDict [("depth", JInt 2)])
              (JInt 2)]
           (JDict [("depth", JInt 3); ("log_directory", JStr "./tmp/")])).
  reflexivity.
Defined.

Lemma elem_of_combinations {A : Type} (r : nat) (l c : list A) :
  c ∈ combinations r l ↔ c `sublist_of` l ∧ length c = r.
Proof.
  revert r c. induction l as [|x l IH]; intros r c.
  - destruct r as [|r]; simpl.
    + rewrite list_elem_of_singleton. split.
      * intros ->. done.
      * intros [_ Hl]. by destruct c.
    + rewrite elem_of_nil. split; [done|].
      intros [->%sublist_nil_r Hl]. done.
  - destruct r as [|r]; simpl.
    + rewrite list_elem_of_singleton. split.
      * intros ->. split; [apply sublist_nil_l | done].
      * intros [_ Hl]. by destruct c.
    + rewrite elem_of_app, list_elem_of_fmap. split.
      * intros [(c' & -> & [Hs Hl]%IH) | [Hs Hl]%IH].
        -- split; [by apply sublist_skip | simpl; by rewrite Hl].
        -- split; [by apply sublist_cons | done].
      * intros [Hs Hl]. apply sublist_cons_r in Hs as [Hs | (c' & -> & Hs)].
        -- right. by apply IH.
        -- left. exists c'. split; [done|]. apply IH. split; [done|].
           simpl in Hl. lia.
Qed.

(** X24. With [all_combin], the combinations that get a configuration are
    the selections of options, in the order of the list, that take one
    option and no more for every base key of the list. *)
Theorem kept_combinations_spec (param_list c : list HyperparameterOption) :
  c ∈ kept_combinations param_list
  ↔ c `sublist_of` param_list
    ∧ map base_key c ≡ₚ remove_dups (map base_key param_list).
Proof.
  unfold kept_combinations.
  rewrite list_elem_of_In, filter_In, <- list_elem_of_In, elem_of_combinations,
    keys_are_unique_NoDup.
  split.
  - intros [[Hs Hl] Hnd]. split; [done|].
    apply submseteq_length_Permutation.
    + apply NoDup_submseteq; [done|]. intros k Hk.
      apply elem_of_remove_dups.
      apply list_elem_of_fmap in Hk as (o & -> & Ho).
      apply list_elem_of_fmap. exists o. split; [done|].
      by eapply elem_of_sublist.
    + rewrite length_map. lia.
  - intros [Hs Hp]. split_and!; [done | |].
    + by rewrite <- (length_map base_key), Hp.
    + rewrite Hp. apply NoDup_remove_dups.
Qed.

Lemma np_min_Done (l : list nat) (m : nat) :
  np_min l = Done m → m ∈ l ∧ Forall (fun n => m ≤ n) l.
Proof.
  destruct l as [|x l]; [done|]. simpl. intros [= <-].
  revert x. induction l as [|y l IH]; intros x; simpl.
  - split; [by left | by repeat constructor].
  - destruct (IH (x `min` y)) as [Hin Hle]. split.
    + apply elem_of_cons in Hin as [-> | Hin].
      * destruct (Nat.min_spec x y) as [[_ ->] | [_ ->]];
          [by left | right; by left].
      * by do 2 right.
    + apply Forall_cons in Hle as [H1 H2].
      repeat constructor; [lia | lia | done].
Qed.

(** X25. With [multi_params] (and no [all_combin]), [make_config_list] fails
    with a [ValueError] on an empty list of options; when it returns, the
    number of the configurations is the least number of options that a base
    key has, so that the further options of the other base keys are left out,
    and the configuration of rank [i] is the one of the options of rank [i]
    of every base key, in the order of [get_base_keys]. *)
Theorem make_config_list_multi_params
    (param_list : list HyperparameterOption) (initial_config : json) :
  make_config_list [] initial_config false true = Raise ValueError
  ∧ ∀ config_list,
      make_config_list param_list initial_config false true
      = Done config_list →
      let options_of key :=
        List.filter (fun o => String.eqb (base_key o) key) param_list in
      (∃ key, key ∈ map base_key param_list
              ∧ length config_list = length (options_of key))
      ∧ (∀ key, key ∈ map base_key param_list →
           length config_list ≤ length (options_of key))
      ∧ ∀ i c, config_list !! i = Some c →
          ∃ options,
            Forall2 (fun key o => options_of key !! i = Some o)
              (get_base_keys (map base_key param_list)) options
            ∧ config_of_options initial_config options = Done c.
Proof.
  split; [done|]. intros config_list. unfold make_config_list. simpl.
  destruct (np_min _) as [m|] eqn:Hm; [|done]. simpl.
  apply np_min_Done in Hm as [Hin Hle].
  intros H%collect_Done. pose proof (Forall2_length _ _ _ H) as Hlen.
  rewrite length_seq in Hlen. subst m.
  unfold base_key_dict in *. rewrite map_map in Hin, Hle. simpl in Hin, Hle.
  destruct (get_base_keys_from [] (map base_key param_list) (NoDup_nil_2))
    as (_ & Hkeys & _).
  fold (get_base_keys (map base_key param_list)) in Hkeys.
  split_and!.
  - apply list_elem_of_fmap in Hin as (key & Hl & Hkey).
    exists key. split; [|done]. apply Hkeys in Hkey as [[]%elem_of_nil|]. done.
  - intros key Hkey. rewrite Forall_fmap, Forall_forall in Hle.
    apply (Hle key). apply Hkeys. by right.
  - intros i c Hc.
    assert (Hi : i < length config_list) by by eapply lookup_lt_Some.
    assert (Hs : seq 0 (length config_list) !! i = Some i)
      by by apply lookup_seq.
    pose proof (Forall2_lookup_lr _ _ _ _ _ _ H Hs Hc) as Hic. simpl in Hic.
    eexists. split; [|exact Hic].
    rewrite Forall_fmap in Hle. clear -Hle Hi.
    induction Hle as [|key keys Hk _ IH]; simpl; [constructor|].
    simpl in Hk.
    destruct (List.filter _ param_list !! i) as [o|] eqn:Ho.
    + simpl. constructor; [done | exact IH].
    + apply lookup_ge_None in Ho. lia.
Qed.

Lemma make_config_list_multi_params_witness :
  ∃ key,
    key ∈ map base_key
            [new_option (fun _ => "") "depth" (JDict [("depth", JInt 2)])
               (JInt 2);
             new_option (fun _ => "") "depth" (JDict [("depth", JInt 4)])
               (JInt 4);
             new_option (fun _ => "") "batch_size"
               (JDict [("batch_size", JInt 4)]) (JInt 4)]
    ∧ length
        [JDict [("depth", JInt 2);
                ("log_directory", JStr "./tmp/-depth=-batch_size=");
                ("batch_size", JInt 4)]]
      = length
          (List.filter (fun o => String.eqb (base_key o) key)
             [new_option (fun _ => "") "depth" (JDict [("depth", JInt 2)])
                (JInt 2);
              new_option (fun _ => "") "depth" (JDict [("depth", JInt 4)])
                (JInt 4);
              new_option (fun _ => "") "batch_size"
                (JDict [("batch_size", JInt 4)]) (JInt 4)]).
Proof.
  exact (proj1
           (proj2
              (make_config_list_multi_params
                 [new_option (fun _ => "") "depth"
                    (JDict [("depth", JInt 2)]) (JInt 2);
                  new_option (fun _ => "") "depth"
                    (JDict [("depth", JInt 4)]) (JInt 4);
                  new_option (fun _ => "") "batch_size"
                    (JDict [("batch_size", JInt 4)]) (JInt 4)]
                 (JDict [("depth", JInt 3);
                         ("log_directory", JStr "./tmp/")]))
              [JDict [("depth", JInt 2);
                      ("log_directory", JStr "./tmp/-depth=-batch_size=");
                      ("batch_size", JInt 4)]]
              eq_refl)).
Defined.

Lemma apply_options_log_dir (options : list HyperparameterOption) :
  ∀ config base config' log_dir,
    apply_options config (JStr base) options = Done (config', log_dir) →
    log_dir
    = JStr (String.append base (foldr String.append "" (map name options))).
Proof.
  induction options as [|o options IH]; intros config base config' log_dir;
    simpl.
  - intros [= _ <-]. by rewrite NamesFacts.append_nil_r.
  - destruct (update_dict _ _ _) as [c1|]; [|done]. simpl.
    intros ->%IH. by rewrite NamesFacts.append_assoc.
Qed.

(** X26. A configuration made of several options ([all_combin] or
    [multi_params]) has, under [log_directory], the directory of the initial
    configuration followed by the names of its options, in their order. *)
Theorem config_of_options_log_dir (initial_config : json) (base : string)
    (options : list HyperparameterOption) (c : json) :
  py_getitem initial_config "log_directory" = Done (JStr base) →
  config_of_options initial_config options = Done c →
  py_getitem c "log_directory"
  = Done (JStr (String.append base
                  (foldr String.append "" (map name options)))).
Proof.
  unfold config_of_options. intros ->. simpl.
  destruct (apply_options _ _ _) as [[c1 ld1]|] eqn:Ha; [|done]. simpl.
  intros (ritems & -> & ->)%py_setitem_Done.
  apply apply_options_log_dir in Ha as ->. simpl.
  by rewrite dict_get_set_eq.
Qed.

Lemma config_of_options_log_dir_witness :
  py_getitem
    (JDict [("depth", JInt 2);
            ("log_directory", JStr "./tmp/-depth=-batch_size=");
            ("batch_size", JInt 4)])
    "log_directory"
  = Done (JStr "./tmp/-depth=-batch_size=").
Proof.
  apply (config_of_options_log_dir
           (JDict [("depth", JInt 3); ("log_directory", JStr "./tmp/")])
           "./tmp/"
           [new_option (fun _ => "") "depth" (JDict [("depth", JInt 2)])
              (JInt 2);
            new_option (fun _ => "") "batch_size"
              (JDict [("batch_size", JInt 4)]) (JInt 4)]);
    reflexivity.
Defined.

End AutomateFacts.
